(** * Aloha Editor: the tree zipper of [src/zippers.js]

    A shallow embedding of the zipper engine (Locations, navigation, the
    splice family, split, markers, text fragmentation, the two tree walks,
    path resolution and the markup driver) together with the properties
    the specification states about it.

    JavaScript values are modelled as the code uses them:
    - a Boromir record is an immutable object; every setter returns a new
      object, so records carry an allocation stamp ([rid]) and [===] on
      records compares stamps;
    - numbers (strides, offsets, path components) are integers ([Z]);
      [Array.prototype.slice] and [String.prototype.slice] are written out
      with their treatment of negative and excessive indices;
    - a thrown exception is an [Outcome] of its own ([Throw]); loops run on
      fuel and [OutOfFuel] is distinct from every JavaScript result. *)

From Stdlib Require Import ZArith Lia Ascii String.
From stdpp Require Import base option list strings gmap pretty.

Open Scope Z_scope.

Set Warnings "-register-all".

(** ** Outcomes of a JavaScript computation *)

Inductive Exn : Type :=
| TypeError               (* property access or call on undefined / a non-function *)
| TextOffsetOutOfBounds.  (* throw 'Text offset out of bounds' *)

Inductive Outcome (A : Type) : Type :=
| Ok (a : A)
| Throw (e : Exn)
| OutOfFuel.

Arguments Ok {A} a.
Arguments Throw {A} e.
Arguments OutOfFuel {A}.

Definition obind {A B} (o : Outcome A) (k : A → Outcome B) : Outcome B :=
  match o with
  | Ok a => k a
  | Throw e => Throw e
  | OutOfFuel => OutOfFuel
  end.

Notation "'let?' x ':=' e 'in' k" := (obind e (fun x => k))
  (at level 10, x pattern, e at level 100, k at level 200).

(** [v.f] or [v.f()] where [v] may be [undefined]. *)
Definition defined {A} (v : option A) : Outcome A :=
  match v with
  | Some a => Ok a
  | None => Throw TypeError
  end.

(** ** Array and string slicing *)

(** Relative index normalisation shared by [slice] on arrays and strings:
    a negative index counts from the end, everything is clamped to
    [0 .. len]. *)
Definition clampIndex (len : nat) (i : Z) : nat :=
  if i <? 0 then Z.to_nat (Z.max (Z.of_nat len + i) 0)
  else Nat.min (Z.to_nat i) len.

(** [l.slice(start, stop)]; [stop = None] is the one-argument form. *)
Definition slice {A} (l : list A) (start : Z) (stop : option Z) : list A :=
  let len := length l in
  let k := clampIndex len start in
  let final := match stop with
               | Some e => clampIndex len e
               | None => len
               end in
  take (final - k)%nat (drop k l).

(** [s.slice(start, stop)] on a string. *)
Definition sliceString (s : string) (start : Z) (stop : option Z) : string :=
  let len := String.length s in
  let k := clampIndex len start in
  let final := match stop with
               | Some e => clampIndex len e
               | None => len
               end in
  String.substring k (final - k)%nat s.

(** [s.substr(start, count)]; [count = None] is the one-argument form. *)
Definition substr (s : string) (start : Z) (count : option Z) : string :=
  let len := String.length s in
  let k := clampIndex len start in
  let n := match count with
           | Some c => Nat.min (Z.to_nat c) (len - k)%nat
           | None => (len - k)%nat
           end in
  String.substring k n s.

Definition upperAscii (c : ascii) : ascii :=
  let n := nat_of_ascii c in
  if ((97 <=? n)%nat && (n <=? 122)%nat)%bool then ascii_of_nat (n - 32)%nat else c.

Fixpoint upperCase (s : string) : string :=
  match s with
  | EmptyString => EmptyString
  | String c s' => String (upperAscii c) (upperCase s')
  end.

(** ** Data model *)

Section Model.

Context {Boundary : Type}.

(** Modelled from the spec: the Record of section 3, which Boromir (not
    among the sources) implements: a name, a text (Text variant), ordered
    children (Element variant), presentational styles. [rid] is the
    identity of the JavaScript object. [isMarkerFlag], [marker],
    [boundary], [isFragmentedTextFlag] and [original] are the ad hoc
    properties zippers.js attaches to records. *)
Inductive Boromir : Type := mkBoromir {
  rid : nat;
  name : string;
  text : string;
  children : list Boromir;
  styles : list (string * string);
  isMarkerFlag : bool;
  marker : option string;
  boundary : option Boundary;
  isFragmentedTextFlag : bool;
  original : option Boromir
}.

(** What an array handled by the zipper holds: a record, or (inside a text
    node) a string fragment. *)
Inductive Item : Type :=
| IStr (s : string)
| IRec (r : Boromir).

(** [contents(record)] returns the children array of an element and the
    text string of a text node, and [down] stores either as [rights]. *)
Inductive Seq : Type :=
| Arr (items : list Item)
| Str (s : string).

Inductive Location : Type := mkLocation {
  lefts : list Item;
  rights : Seq;
  frames : list Location
}.

(** The argument of [splice]: [undefined], one record, or an array. *)
Inductive Replacement : Type :=
| RUndefined
| ROne (r : Boromir)
| RMany (items : list Item).

(** ** Heap: object allocation and the module-level marker counter *)

Record Heap : Type := mkHeap {
  nextId : nat;
  markerCount : nat
}.

Definition M (A : Type) : Type := Heap → Outcome (A * Heap).

Definition ret {A} (a : A) : M A := fun h => Ok (a, h).

Definition bind {A B} (m : M A) (k : A → M B) : M B :=
  fun h => match m h with
           | Ok (a, h') => k a h'
           | Throw e => Throw e
           | OutOfFuel => OutOfFuel
           end.

Definition lift {A} (o : Outcome A) : M A :=
  fun h => match o with
           | Ok a => Ok (a, h)
           | Throw e => Throw e
           | OutOfFuel => OutOfFuel
           end.

(** A fresh object identity. *)
Definition fresh : M nat :=
  fun h => Ok (nextId h, mkHeap (S (nextId h)) (markerCount h)).

(** [++markerCount] *)
Definition incrMarkerCount : M nat :=
  fun h => Ok (S (markerCount h), mkHeap (nextId h) (S (markerCount h))).

End Model.

Arguments Boromir : clear implicits.
Arguments Item : clear implicits.
Arguments Seq : clear implicits.
Arguments Location : clear implicits.
Arguments Replacement : clear implicits.

Notation "'let*' x ':=' e 'in' k" := (bind e (fun x => k))
  (at level 10, x pattern, e at level 100, k at level 200).

(** ** The collaborators zippers.js calls but does not define

    [Html.isVoidNode] on the node of a record, [Paths.fromBoundary] for a
    boundary and for the front of a record's node, [Paths.toBoundary], and
    two corners of Boromir that the specification leaves open: how a record
    prints when an array holding it is joined, and what wrapping a string
    (instead of a node) yields. *)
Class Host (Boundary : Type) : Type := {
  isVoidNode : Boromir Boundary → bool;
  pathOfBoundary : Boundary → list Z;
  pathOfFront : Boromir Boundary → list Z;
  boundaryOfPath : Boromir Boundary → list Z → Boundary;
  recordToString : Boromir Boundary → string;
  boromirOfString : string → M (Boromir Boundary)
}.

(** ** zippers.js *)

Section Zippers.

Context {Boundary : Type} `{!Host Boundary}.

Local Abbreviation Boromir := (Boromir Boundary).
Local Abbreviation Item := (Item Boundary).
Local Abbreviation Seq := (Seq Boundary).
Local Abbreviation Location := (Location Boundary).
Local Abbreviation Replacement := (Replacement Boundary).

(** *** Boromir *)

(** Modelled from the spec: [record.text(s)] of Boromir; edits produce a
    new Record, here one that differs in its text and identity only. *)
Definition setText (r : Boromir) (s : string) : M Boromir :=
  let* i := fresh in
  ret (mkBoromir i (name r) s (children r) (styles r) (isMarkerFlag r)
         (marker r) (boundary r) (isFragmentedTextFlag r) (original r)).

(** Modelled from the spec: [record.children(kids)] of Boromir. *)
Definition setChildren (r : Boromir) (kids : list Boromir) : M Boromir :=
  let* i := fresh in
  ret (mkBoromir i (name r) (text r) kids (styles r) (isMarkerFlag r)
         (marker r) (boundary r) (isFragmentedTextFlag r) (original r)).

(** Modelled from the spec: [record.style(k, v)] of Boromir, the
    presentational attribute [update] uses for debug tagging. *)
Definition setStyle (r : Boromir) (k v : string) : M Boromir :=
  let* i := fresh in
  ret (mkBoromir i (name r) (text r) (children r) ((k, v) :: styles r)
         (isMarkerFlag r) (marker r) (boundary r) (isFragmentedTextFlag r)
         (original r)).

(** Modelled from the spec: [Boromir(document.createTextNode(''))], an
    empty Text record. *)
Definition newTextNode : M Boromir :=
  let* i := fresh in
  ret (mkBoromir i "#text" "" [] [] false None None false None).

(** Modelled from the spec: [Boromir(document.createElement(type))], an
    empty Element record; the node name of an HTML element is its tag in
    upper case. *)
Definition newElement (type : string) : M Boromir :=
  let* i := fresh in
  ret (mkBoromir i (upperCase type) "" [] [] false None None false None).

(** Modelled from the spec: [Boromir(Dom.cloneShallow(record.domNode()))],
    the shallow structural clone: same name and own data, no children, and
    none of the ad hoc properties (the FIXME notes of zippers.js). *)
Definition clone (r : Boromir) : M Boromir :=
  let* i := fresh in
  ret (mkBoromir i (name r) (text r) [] (styles r) false None None false None).

(** [a === b] on two records. *)
Definition sameObject (a b : Boromir) : bool := Nat.eqb (rid a) (rid b).

(** A value on which a Boromir method is called: [undefined] and strings
    have no [name], [text], [children] or [domNode] method. *)
Definition asRecord (v : option Item) : Outcome Boromir :=
  match v with
  | Some (IRec r) => Ok r
  | Some (IStr _) => Throw TypeError
  | None => Throw TypeError
  end.

(** *** Arrays *)

(** [a.concat(s)]: an array argument is spread, anything else is
    appended as one element. *)
Definition concat (a : list Item) (s : Seq) : list Item :=
  match s with
  | Arr items => a ++ items
  | Str x => a ++ [IStr x]
  end.

Definition seqSlice (s : Seq) (start : Z) (stop : option Z) : Seq :=
  match s with
  | Arr items => Arr (slice items start stop)
  | Str x => Str (sliceString x start stop)
  end.

Definition seqLength (s : Seq) : nat :=
  match s with
  | Arr items => length items
  | Str x => String.length x
  end.

(** [s[0]] *)
Definition seqFirst (s : Seq) : option Item :=
  match s with
  | Arr items => head items
  | Str (String c _) => Some (IStr (String c EmptyString))
  | Str EmptyString => None
  end.

(** [items.join('')] *)
Definition join (items : list Item) : string :=
  foldr (fun it acc => match it with
                        | IStr s => s +:+ acc
                        | IRec r => recordToString r +:+ acc
                        end) EmptyString items.

(** [item instanceof Boromir ? item : Boromir(item)] over an array *)
Fixpoint wrapAll (items : list Item) : M (list Boromir) :=
  match items with
  | [] => ret []
  | IRec r :: rest =>
      let* rs := wrapAll rest in ret (r :: rs)
  | IStr s :: rest =>
      let* r := boromirOfString s in
      let* rs := wrapAll rest in ret (r :: rs)
  end.

(** *** Records and contents *)

Definition isTextRecord (record : Boromir) : bool :=
  String.eqb "#text" (name record).

(** [contents(record)] *)
Definition contents (record : Boromir) : Seq :=
  if isTextRecord record then Str (text record)
  else Arr (map IRec (children record)).

(** [contents(record, content)]: [content.join] and [content.map] exist on
    arrays only. *)
Definition contentsWith (record : Boromir) (content : Seq) : M Boromir :=
  match content with
  | Str _ => lift (Throw TypeError)
  | Arr items =>
      if isTextRecord record then setText record (join items)
      else let* kids := wrapAll items in setChildren record kids
  end.

(** *** Locations and navigation *)

Definition peek (loc : Location) : option Location := last (frames loc).

Definition before (loc : Location) : option Item := last (lefts loc).

Definition after (loc : Location) : option Item := seqFirst (rights loc).

(** ['number' === typeof stride ? stride : 1] *)
Definition strideOr1 (stride : option Z) : Z := default 1 stride.

Definition prev (loc : Location) (stride : option Z) : Location :=
  let stride := strideOr1 stride in
  mkLocation
    (slice (lefts loc) 0 (Some (- stride)))
    (Arr (concat (slice (lefts loc) (- stride) None) (rights loc)))
    (frames loc).

Definition next (loc : Location) (stride : option Z) : Location :=
  let stride := strideOr1 stride in
  mkLocation
    (concat (lefts loc) (seqSlice (rights loc) 0 (Some stride)))
    (seqSlice (rights loc) stride None)
    (frames loc).

Definition down (loc : Location) : Outcome Location :=
  let? record := asRecord (after loc) in
  Ok (mkLocation [] (contents record) (frames loc ++ [loc])).

Definition up (loc : Location) : M Location :=
  let content := concat (lefts loc) (rights loc) in
  let* frame := lift (defined (last (frames loc))) in
  let* record := lift (asRecord (after frame)) in
  let* first := contentsWith record (Arr content) in
  ret (mkLocation
         (lefts frame)
         (Arr (concat [IRec first] (seqSlice (rights frame) 1 None)))
         (slice (frames loc) 0 (Some (-1)))).

(** [array.reduce(up, loc)]: [up] is applied once per element and only
    reads its first argument, the accumulated Location. *)
Fixpoint reduceUp (array : list Location) (loc : Location) : M Location :=
  match array with
  | [] => ret loc
  | _ :: rest => let* loc' := up loc in reduceUp rest loc'
  end.

Definition root (loc : Location) : M Location :=
  reduceUp (frames loc) loc.

(** [Boromir(root)]: the tree handed to [create] is taken in record form. *)
Definition create (root : Boromir) : Location :=
  mkLocation [] (Arr [IRec root]) [].

Definition isTextLocation (loc : Location) : bool :=
  match after loc with
  | Some (IStr _) => true
  | _ => false
  end.

Definition jump (loc : Location) (steps : Z) : Location :=
  if steps =? 0 then loc else next loc (Some steps).

Definition isRoot (loc : Location) : bool :=
  Nat.eqb 0 (length (frames loc)).

Definition isMarker (record : Boromir) : bool := isMarkerFlag record.

(** [isMarker(v)] on an arbitrary value: a string has no [isMarker]
    property, reading one off [undefined] throws. *)
Definition isMarkerValue (v : option Item) : Outcome bool :=
  match v with
  | Some (IRec r) => Ok (isMarker r)
  | Some (IStr _) => Ok false
  | None => Throw TypeError
  end.

Definition isVoid (loc : Location) : Outcome bool :=
  let? record := asRecord (after loc) in
  Ok (String.eqb "#text" (name record) || isMarker record || isVoidNode record).

Definition isAtStart (loc : Location) : bool :=
  Nat.eqb 0 (length (lefts loc)).

Definition isAtEnd (loc : Location) : bool :=
  Nat.eqb 0 (seqLength (rights loc)).

Definition isFragmentedText (record : Boromir) : bool :=
  String.eqb "Q" (name record).

(** *** Editing primitives *)

Definition splice (loc : Location) (num : Z) (replacement : Replacement)
  : Location :=
  let replacements := match replacement with
                      | ROne r => [IRec r]
                      | RMany items => items
                      | RUndefined => []
                      end in
  mkLocation
    (lefts loc)
    (Arr (concat replacements (seqSlice (rights loc) num None)))
    (frames loc).

Definition insert (loc : Location) (items : Replacement) : Location :=
  splice loc 0 items.

Definition replace (loc : Location) (item : Replacement) : Location :=
  splice loc 1 item.

Definition remove (loc : Location) : Location :=
  splice loc 1 RUndefined.

Definition createRecord (type : string) (content : option (list Item))
  : M Boromir :=
  let* node := if String.eqb "#text" type then newTextNode else newElement type in
  match content with
  | None => ret node
  | Some items => contentsWith node (Arr items)
  end.

(** [split]: the recursion goes one frame up at a time, so the number of
    frames of the starting Location bounds it. *)
Fixpoint splitFrom (n : nat) (loc : Location) (until : option (Location → bool))
  : M Location :=
  let* frame := lift (defined (peek loc)) in
  if isRoot frame || default (fun _ => false) until loc then ret loc
  else
    let* upper := up loc in
    let* halves :=
      if isTextLocation loc then
        let* l := createRecord "#text" None in
        let* r := createRecord "#text" None in
        ret (l, r)
      else
        let* record := lift (asRecord (after upper)) in
        let* l := clone record in
        let* r := clone record in
        ret (l, r) in
    let* leftHalf := contentsWith (fst halves) (Arr (lefts loc)) in
    let* rightHalf := contentsWith (snd halves) (rights loc) in
    let loc' := mkLocation
                  (lefts upper ++ [IRec leftHalf])
                  (Arr (concat [IRec rightHalf] (seqSlice (rights upper) 1 None)))
                  (frames upper) in
    match n with
    | O => lift OutOfFuel
    | S n' => splitFrom n' loc' until
    end.

Definition split (loc : Location) (until : option (Location → bool))
  : M Location :=
  splitFrom (length (frames loc)) loc until.

(** *** Fragmented text *)

Definition fragmentsLength (fragments : list Boromir) : Z :=
  foldl (fun sum record => sum + Z.of_nat (String.length (text record))) 0
    fragments.

(** [items.filter(isTextRecord)] *)
Fixpoint filterTextRecords (items : list Item) : Outcome (list Boromir) :=
  match items with
  | [] => Ok []
  | it :: rest =>
      let? r := asRecord (Some it) in
      let? rs := filterTextRecords rest in
      Ok (if isTextRecord r then r :: rs else rs)
  end.

Definition defragmentText (record : Boromir) : M Boromir :=
  let joined := String.concat "" (map text (filter (fun r => isTextRecord r = true)
                                              (children record))) in
  match original record with
  | Some o => if String.eqb (text o) joined then ret o
              else createRecord "#text" (Some [IStr joined])
  | None => createRecord "#text" (Some [IStr joined])
  end.

Definition normalizeOffset (record : Boromir) (offset : Z) : Z :=
  offset + Z.of_nat (length (filter (fun r => isMarker r = true)
                               (slice (children record) 0 (Some offset)))).

(** The [while (index < len)] loop of [fragmentedOffset], on the fragments
    from [index] on. *)
Fixpoint fragmentedOffsetFrom (fragments : list Boromir) (index remainder : Z)
  : Outcome (list Z) :=
  match fragments with
  | [] => Throw TextOffsetOutOfBounds
  | fragment :: rest =>
      if isMarker fragment then fragmentedOffsetFrom rest (index + 1) remainder
      else
        let overflow := remainder - Z.of_nat (String.length (text fragment)) in
        if overflow =? 0 then Ok [index + 1]
        else if overflow <? 0 then Ok [index; remainder]
        else fragmentedOffsetFrom rest (index + 1) overflow
  end.

Definition fragmentedOffset (record : Boromir) (offset : Z) : Outcome (list Z) :=
  if offset =? 0 then Ok [0]
  else fragmentedOffsetFrom (children record) 0 offset.

Definition splitText (text : string) (offset : Z) : string * string :=
  (substr text 0 (Some offset), substr text offset None).

(** [splitText(contents(record), offset)]: [substr] exists on strings only. *)
Definition splitContents (record : Boromir) (offset : Z)
  : Outcome (string * string) :=
  match contents record with
  | Str s => Ok (splitText s offset)
  | Arr _ => Throw TypeError
  end.

Definition locationInText (loc : Location) (offset : Z) : Outcome Location :=
  let? record := asRecord (after loc) in
  let? parts := splitContents record offset in
  Ok (mkLocation [IStr (fst parts)] (Arr [IStr (snd parts)]) (frames loc ++ [loc])).

Definition locationInElement (loc : Location) (offset : Z) : Outcome Location :=
  let? inner := down loc in
  let? record := asRecord (after loc) in
  Ok (next inner (Some (normalizeOffset record offset))).

Definition locationInFragment (loc : Location) (offset : Z) : M Location :=
  let* record := lift (asRecord (after loc)) in
  let* offsets := lift (fragmentedOffset record offset) in
  let* inner := lift (down loc) in
  match offsets with
  | [o0] => ret (next inner (Some o0))
  | o0 :: o1 :: _ =>
      let atText := next inner (Some o0) in
      let* fragment := lift (asRecord (after atText)) in
      let* parts := lift (splitContents fragment o1) in
      let* a := createRecord "#text" (Some [IStr (fst parts)]) in
      let* b := createRecord "#text" (Some [IStr (snd parts)]) in
      ret (next (splice atText 1 (RMany [IRec a; IRec b])) None)
  | [] => lift (Throw TypeError)
  end.

(** [while (isMarker(after(loc))) loc = next(loc)]: every turn shortens
    [rights], and an exhausted [rights] throws. *)
Fixpoint skipMarkers (n : nat) (loc : Location) : Outcome Location :=
  let? m := isMarkerValue (after loc) in
  if m then
    match n with
    | O => OutOfFuel
    | S n' => skipMarkers n' (next loc None)
    end
  else Ok loc.

Fixpoint traverse (loc : Location) (path : list Z) : M Location :=
  match path with
  | [] => ret loc
  | offset :: rest =>
      let* loc := lift (skipMarkers (seqLength (rights loc)) loc) in
      let* record := lift (asRecord (after loc)) in
      if isTextRecord record then lift (locationInText loc offset)
      else
        let* loc := if isFragmentedText record
                    then locationInFragment loc offset
                    else lift (locationInElement loc offset) in
        traverse loc rest
  end.

(** The [for] loop of [clipCommonRoot], from index [i] with [n] turns left. *)
Fixpoint clipCommonRootFrom (root path : list Z) (i n : nat) : list Z :=
  match n with
  | O => slice path (Z.of_nat i) None
  | S n' =>
      if decide (path !! i = root !! i)
      then clipCommonRootFrom root path (S i) n'
      else []
  end.

Definition clipCommonRoot (root path : list Z) : list Z :=
  clipCommonRootFrom root path 0 (length root).

(** *** Markers *)

Definition FragmentedText (loc : Location) : M Location :=
  let* atText := up loc in
  let* q := newElement "q" in
  let wrapper := mkBoromir (rid q) (name q) (text q) (children q) (styles q)
                   (isMarkerFlag q) (marker q) (boundary q) true
                   (match after atText with
                    | Some (IRec o) => Some o
                    | _ => None
                    end) in
  let* l0 := createRecord "#text" None in
  let* l := contentsWith l0 (Arr (lefts loc)) in
  let* r0 := createRecord "#text" None in
  let* r := contentsWith r0 (rights loc) in
  let* inner := lift (down (replace atText (ROne wrapper))) in
  ret (mkLocation [IRec l] (Arr [IRec r]) (frames inner)).

(** [Marker(boundary, name)]: a [code] element whose content is the new
    value of the marker counter. *)
Definition Marker (b : Boundary) (markerName : string) : M Boromir :=
  let* count := incrMarkerCount in
  let* i := fresh in
  let* j := fresh in
  let label := mkBoromir j "#text" (pretty count) [] [] false None None false None in
  ret (mkBoromir i "CODE" "" [label] [] true (Some markerName) (Some b) false None).

Definition mark (loc : Location) (marker : Boromir) : M Location :=
  let* loc := if isTextLocation loc then FragmentedText loc else ret loc in
  ret (insert loc (ROne marker)).

Definition insertMarker (marker : Boromir) (loc : Location) (path : list Z)
  : M Location :=
  let* at_ := traverse loc path in
  let* marked := mark at_ marker in
  root marked.

(** [{ tree, marker }]; a [null] marker is [None]. *)
Definition markTree (tree : Location) (b : Boundary) (markerName : string)
  : M (Location * option Boromir) :=
  let* element := lift (asRecord (after tree)) in
  let root := pathOfFront element in
  let path := pathOfBoundary b in
  let clipped := clipCommonRoot root path in
  if Nat.eqb 0 (length clipped) then ret (tree, None)
  else
    let* marker := Marker b markerName in
    let* tree' := insertMarker marker tree clipped in
    ret (tree', Some marker).

(** One turn of the [Maps.forEach] callback of [markup]. *)
Definition markupStep (st : Location * gmap string (option Boromir))
  (entry : string * Boundary) : M (Location * gmap string (option Boromir)) :=
  let* result := markTree (fst st) (snd entry) (fst entry) in
  ret (fst result, <[fst entry := snd result]> (snd st)).

(** [Maps.forEach(marked, ...)] from a given [tree] and [markers]; [marked]
    lists the entries of the boundary map in iteration order. *)
Fixpoint markupFrom (st : Location * gmap string (option Boromir))
  (marked : list (string * Boundary))
  : M (Location * gmap string (option Boromir)) :=
  match marked with
  | [] => ret st
  | entry :: rest =>
      let* st' := markupStep st entry in markupFrom st' rest
  end.

Definition markup (tree : Location) (marked : list (string * Boundary))
  : M (Location * gmap string (option Boromir)) :=
  markupFrom (tree, ∅) marked.

Definition zipper (element : Boromir) (boundaries : list (string * Boundary))
  : M (Location * gmap string (option Boromir)) :=
  markup (create element) boundaries.

(** *** Tree walks *)

(** One turn of the [while (true)] loop of [walkPostOrder]. The callback
    threads [acc], the variables it captures. [inl] is the [break]. *)
Definition walkPostOrderTurn {Acc : Type}
  (mutate : Boromir → list Z → Acc → M (list Item * Acc))
  (loc : Location) (trail : list Z) (acc : Acc)
  : M ((Location * Acc) + (Location * list Z * Acc)) :=
  if isAtEnd loc then
    let* loc := up loc in
    if isRoot loc then ret (inl (loc, acc))
    else
      let trail := slice trail 0 (Some (-1)) in
      let* record := lift (asRecord (after loc)) in
      let* res := mutate record trail acc in
      let replacements := fst res in
      ret (inr (jump (replace loc (RMany replacements))
                  (Z.of_nat (length replacements)), trail, snd res))
  else
    let* void := lift (isVoid loc) in
    if void then
      let* upper := up loc in
      let* parent := lift (asRecord (after upper)) in
      let* offset :=
        if isFragmentedText parent
        then let* fragments := lift (filterTextRecords (lefts loc)) in
             ret (fragmentsLength fragments)
        else ret (Z.of_nat (length (lefts loc))) in
      let* record := lift (asRecord (after loc)) in
      let* res := mutate record (trail ++ [offset]) acc in
      let replacements := fst res in
      ret (inr (jump (replace loc (RMany replacements))
                  (Z.of_nat (length replacements)), trail, snd res))
    else
      let trail := if isRoot loc then trail
                   else trail ++ [Z.of_nat (length (lefts loc))] in
      let* loc := lift (down loc) in
      ret (inr (loc, trail, acc)).

Fixpoint walkPostOrderLoop {Acc : Type} (fuel : nat)
  (mutate : Boromir → list Z → Acc → M (list Item * Acc))
  (loc : Location) (trail : list Z) (acc : Acc) : M (Location * Acc) :=
  match fuel with
  | O => lift OutOfFuel
  | S fuel' =>
      let* turn := walkPostOrderTurn mutate loc trail acc in
      match turn with
      | inl done => ret done
      | inr (loc', trail', acc') => walkPostOrderLoop fuel' mutate loc' trail' acc'
      end
  end.

Definition walkPostOrder {Acc : Type} (fuel : nat) (loc : Location)
  (mutate : Boromir → list Z → Acc → M (list Item * Acc)) (acc : Acc)
  : M (Location * Acc) :=
  let* loc := root loc in
  walkPostOrderLoop fuel mutate loc [] acc.

(** The [do ... while (isAtEnd(loc))] of [walkPreOrderWhile]; every turn
    pops a frame. [inl] is the [return loc] inside it. *)
Fixpoint ascend (n : nat) (loc : Location) : M (Location + Location) :=
  if isRoot loc then ret (inl loc)
  else
    let* loc := up loc in
    if isAtEnd loc then
      match n with
      | O => lift OutOfFuel
      | S n' => ascend n' loc
      end
    else ret (inr loc).

Fixpoint walkPreOrderWhileLoop (fuel : nat) (pred : Location → bool)
  (loc : Location) : M Location :=
  match fuel with
  | O => lift OutOfFuel
  | S fuel' =>
      if pred loc then
        if isAtEnd loc then
          let* r := ascend (length (frames loc)) loc in
          match r with
          | inl loc => ret loc
          | inr loc => walkPreOrderWhileLoop fuel' pred (next loc None)
          end
        else
          let* void := lift (isVoid loc) in
          if void then walkPreOrderWhileLoop fuel' pred (next loc None)
          else
            let* loc := lift (down loc) in
            walkPreOrderWhileLoop fuel' pred loc
      else ret loc
  end.

Definition walkPreOrderWhile (fuel : nat) (loc : Location)
  (pred : option (Location → bool)) : M Location :=
  let pred := default (fun _ => true) pred in
  let* loc := root loc in
  walkPreOrderWhileLoop fuel pred loc.

(** [record && isMarker(record) && record === marker] *)
Definition isTheMarker (marker : Boromir) (v : option Item) : bool :=
  match v with
  | Some (IRec record) => isMarker record && sameObject record marker
  | Some (IStr _) => false
  | None => false
  end.

(** [gotoMarker]; [null] is [None]. *)
Definition gotoMarker (fuel : nat) (tree : Location) (marker : Boromir)
  : M (option Location) :=
  let* top := root tree in
  let* loc := walkPreOrderWhile fuel top
                (Some (fun loc => negb (isTheMarker marker (after loc)))) in
  ret (if isRoot loc then None else Some loc).

(** The callback of [update]; [paths] is the array it pushes to. *)
Definition updateMutate (record : Boromir) (trail : list Z)
  (paths : list (option string * list Z))
  : M (list Item * list (option string * list Z)) :=
  if isMarker record then ret ([], paths ++ [(marker record, trail)])
  else if isFragmentedText record then
    let* t := defragmentText record in ret ([IRec t], paths)
  else if negb (isTextRecord record) then
    if Nat.eqb (length (children record)) 0 then
      let* r := setStyle record "outline" "3px solid rgba(150, 50, 50, 0.3)" in
      ret ([IRec r], paths)
    else
      let* r := setStyle record "outline" "3px solid rgba(50, 150, 50, 0.3)" in
      ret ([IRec r], paths)
  else ret ([IRec record], paths).

(** [update]: the rebuilt root is committed and every recorded path is
    resolved against it. A marker without a name is stored under the
    property key ["undefined"]. *)
Definition update (fuel : nat) (loc : Location) : M (gmap string Boundary) :=
  let* res := walkPostOrder fuel loc updateMutate [] in
  let* editable := lift (asRecord (after (fst res))) in
  ret (foldl (fun markers mark =>
                <[default "undefined" (fst mark) :=
                    boundaryOfPath editable (snd mark)]> markers)
         ∅ (snd res)).

End Zippers.

(** ** Plain records and a concrete host, to run the model on *)

Definition textNode {Boundary : Type} (i : nat) (s : string) : Boromir Boundary :=
  mkBoromir i "#text" s [] [] false None None false None.

Definition element {Boundary : Type} (i : nat) (tag : string)
  (kids : list (Boromir Boundary)) : Boromir Boundary :=
  mkBoromir i tag "" kids [] false None None false None.

Definition htmlVoidNames : list string :=
  ["AREA"; "BASE"; "BR"; "COL"; "EMBED"; "HR"; "IMG"; "INPUT"; "KEYGEN";
   "LINK"; "META"; "PARAM"; "SOURCE"; "TRACK"; "WBR"].

(** Boundaries given directly as paths from the document body; the
    editable element sits at path [[0]]. *)
#[export] Instance pathHost : Host (list Z) := {|
  isVoidNode r := bool_decide (name r ∈ htmlVoidNames);
  pathOfBoundary b := b;
  pathOfFront _ := [0];
  boundaryOfPath _ p := p;
  recordToString _ := "[object Object]";
  boromirOfString _ := lift (Throw TypeError)
|}.

Definition heap0 : Heap := mkHeap 100 0.

(** ** Vocabulary of the specification *)

Section Vocabulary.

Context {Boundary : Type} `{!Host Boundary}.

Local Abbreviation Boromir := (Boromir Boundary).
Local Abbreviation Item := (Item Boundary).
Local Abbreviation Seq := (Seq Boundary).
Local Abbreviation Location := (Location Boundary).

(** Total length of the fragments of a record, markers skipped. *)
Definition fragmentsTotal (record : Boromir) : Z :=
  fragmentsLength (filter (fun r => isMarker r = false) (children record)).

(** The text of all non-marker Text children, as the specification words
    the input of defragmentation. *)
Definition fragmentsText (record : Boromir) : string :=
  String.concat ""
    (map text (filter (fun r => isTextRecord r = true ∧ isMarker r = false)
                 (children record))).

(** Markers are Element records (section 3 of the specification). *)
Definition markersAreElements (records : list Boromir) : Prop :=
  Forall (fun r => isMarker r = true → isTextRecord r = false) records.

(** A Location whose arrays hold records only. *)
Definition recLoc (ls rs : list Boromir) (fs : list Location) : Location :=
  mkLocation (map IRec ls) (Arr (map IRec rs)) fs.

(** What [isVoid] tests on the record at the cursor. *)
Definition isLeaf (r : Boromir) : bool :=
  String.eqb "#text" (name r) || isMarker r || isVoidNode r.

(** The record [contents(p, kids)] builds, under identity [i]. *)
Definition rebuild (i : nat) (p : Boromir) (kids : list Boromir) : Boromir :=
  if isTextRecord p
  then mkBoromir i (name p) (join (map IRec kids)) (children p) (styles p)
         (isMarkerFlag p) (marker p) (boundary p) (isFragmentedTextFlag p)
         (original p)
  else mkBoromir i (name p) (text p) kids (styles p) (isMarkerFlag p)
         (marker p) (boundary p) (isFragmentedTextFlag p) (original p).

(** The heap after one allocation. *)
Definition bump (h : Heap) : Heap := mkHeap (S (nextId h)) (markerCount h).

(** A record without its identity and those of its descendants. Two
    records are structurally equal when their shapes are equal. *)
Inductive Shape : Type :=
| mkShape (n t : string) (kids : list Shape) (st : list (string * string))
    (m : bool) (mn : option string) (b : option Boundary) (f : bool)
    (o : option Boromir).

Fixpoint shape (r : Boromir) : Shape :=
  match r with
  | mkBoromir _ n t kids st m mn b f o =>
      mkShape n t (map shape kids) st m mn b f o
  end.

(** [record => [record]], the callback that changes nothing. *)
Definition identityMutate (record : Boromir) (trail : list Z) (acc : unit)
  : M (list Item * unit) :=
  ret ([IRec record], acc).

(** The post-order walk with the identity callback, started on [c] below
    the root, steps over [c] after finitely many turns and leaves a
    structurally equal record behind the cursor. *)
Definition walksPostOrder (c : Boromir) : Prop :=
  ∀ (ls rs : list Boromir) (fs : list Location) (pls : list Boromir)
    (p : Boromir) (prs : list Boromir) (pfs : list Location) (trail : list Z)
    (h : Heap),
  ∃ k c' h',
    (∀ fuel,
       walkPostOrderLoop (k + fuel) identityMutate
         (recLoc ls (c :: rs) (fs ++ [recLoc pls (p :: prs) pfs])) trail tt h
       = walkPostOrderLoop fuel identityMutate
           (recLoc (ls ++ [c']) rs (fs ++ [recLoc pls (p :: prs) pfs])) trail tt h')
    ∧ shape c' = shape c.

(** [m] is the marker sought and [r] is it: what the predicate of
    [gotoMarker] tests on a record. *)
Definition isHit (m r : Boromir) : bool := isMarker r && sameObject r m.

(** The pre-order walk meets [m] strictly below [r]: leaves are not
    entered. *)
Fixpoint seenBelow (m r : Boromir) : bool :=
  match r with
  | mkBoromir _ _ _ kids _ _ _ _ _ _ =>
      negb (isLeaf r) && existsb (fun c => isHit m c || seenBelow m c) kids
  end.

Definition seen (m c : Boromir) : bool := isHit m c || seenBelow m c.

(** Some record of the tree [r] is the object [m]. *)
Fixpoint occurs (m r : Boromir) : bool :=
  match r with
  | mkBoromir _ _ _ kids _ _ _ _ _ _ =>
      sameObject r m || existsb (occurs m) kids
  end.

(** The predicate [gotoMarker] walks under. *)
Definition notTheMarker (m : Boromir) (loc : Location) : bool :=
  negb (isTheMarker m (after loc)).

(** The search loop of [gotoMarker], started on [c]: if the walk meets [m]
    at or below [c] it returns a Location on a hit, inside [c] unless [c]
    itself is the hit; otherwise it steps over [c]. *)
Definition searchesPreOrder (m c : Boromir) : Prop :=
  ∀ (ls rs : list Boromir) (fs : list Location) (h : Heap),
  ∃ k h',
    if seen m c then
      ∃ loc' x more,
        (∀ fuel,
           walkPreOrderWhileLoop (k + S fuel) (notTheMarker m)
             (recLoc ls (c :: rs) fs) h = Ok (loc', h'))
        ∧ after loc' = Some (IRec x) ∧ isHit m x = true
        ∧ frames loc' = fs ++ more ∧ (isHit m c = false → more ≠ [])
    else
      ∃ c',
        ∀ fuel,
          walkPreOrderWhileLoop (k + fuel) (notTheMarker m)
            (recLoc ls (c :: rs) fs) h
          = walkPreOrderWhileLoop fuel (notTheMarker m)
              (recLoc (ls ++ [c']) rs fs) h'.

(** *** Locations as the zipper builds them *)

(** The items of a level can be set as the content of [parent]: anything
    joins into a text node, an element takes records. *)
Definition wrappable (parent : Boromir) (items : list Item) : Prop :=
  isTextRecord parent = false → ∃ kids, items = map IRec kids.

(** A stack of frames, outermost first: the first frame is a root
    Location, every further frame was entered from the frame before it,
    holds records only, and sits under an element. *)
Inductive chained : list Location → Prop :=
| chained_root (f : Location) :
    frames f = [] → chained [f]
| chained_push (fs : list Location) (g : Location) (q : Boromir)
    (f : Location) (p : Boromir) (ls prest : list Boromir) :
    chained (fs ++ [g]) →
    after g = Some (IRec q) → isTextRecord q = false →
    frames f = fs ++ [g] →
    lefts f = map IRec ls → rights f = Arr (IRec p :: map IRec prest) →
    chained ((fs ++ [g]) ++ [f]).

(** A Location below the root: [lefts] and [rights] are arrays that fit
    the record the innermost frame is positioned on. *)
Definition wellFramed (loc : Location) : Prop :=
  ∃ rs f p prest,
    rights loc = Arr rs ∧ chained (frames loc)
    ∧ last (frames loc) = Some f ∧ rights f = Arr (IRec p :: prest)
    ∧ wrappable p (lefts loc ++ rs).

(** [half] holds exactly [items]: as its text if it is a text node, as its
    children otherwise. *)
Definition seeded (half : Boromir) (items : list Item) : Prop :=
  contents half = if isTextRecord half then Str (join items) else Arr items.

(** One level of [split]: the record under the innermost frame is replaced
    by a left half seeded with [lefts] and a right half seeded with
    [rights], adjacent at the level of that frame. *)
Definition splitsOnce (loc mid : Location) : Prop :=
  ∃ f p prest rs l r,
    last (frames loc) = Some f ∧ frames f ≠ []
    ∧ rights f = Arr (IRec p :: prest) ∧ rights loc = Arr rs
    ∧ isTextRecord l = isTextRecord p ∧ isTextRecord r = isTextRecord p
    ∧ seeded l (lefts loc) ∧ seeded r rs
    ∧ mid = mkLocation (lefts f ++ [IRec l]) (Arr (IRec r :: prest)) (frames f).

Fixpoint splitLevels (d : nat) (loc loc' : Location) : Prop :=
  match d with
  | O => loc' = loc
  | S d' => ∃ mid, splitsOnce loc mid ∧ splitLevels d' mid loc'
  end.

(** Where [split] goes no further: the innermost frame is the root frame,
    or [until] holds of the Location. *)
Definition splitStops (until : option (Location → bool)) (loc : Location)
  : bool :=
  match last (frames loc) with
  | Some f => isRoot f || default (fun _ => false) until loc
  | None => false
  end.

(** [split] went up exactly [d] levels from [loc] to [loc']: at none of the
    [d] Locations on the way it was to stop, every level was split as
    [splitsOnce] says, and at [loc'] it is to stop. *)
Fixpoint splitRun (until : option (Location → bool)) (d : nat)
  (loc loc' : Location) : Prop :=
  match d with
  | O => loc' = loc ∧ splitStops until loc = true
  | S d' =>
      splitStops until loc = false
      ∧ ∃ mid, splitsOnce loc mid ∧ splitRun until d' mid loc'
  end.

(** The record [d] levels down the right edge, and down the left edge. *)
Fixpoint rightmost (d : nat) (r : Boromir) : option Boromir :=
  match d with
  | O => Some r
  | S d' => match last (children r) with
            | Some c => rightmost d' c
            | None => None
            end
  end.

Fixpoint leftmost (d : nat) (r : Boromir) : option Boromir :=
  match d with
  | O => Some r
  | S d' => match head (children r) with
            | Some c => leftmost d' c
            | None => None
            end
  end.

(** The contents on both sides of the split point, [d] levels below the
    cursor of [loc]. *)
Definition splitPoint (d : nat) (loc : Location) : option (Seq * Seq) :=
  match d with
  | O => Some (Arr (lefts loc), rights loc)
  | S d' =>
      match before loc, after loc with
      | Some (IRec l), Some (IRec r) =>
          match rightmost d' l, leftmost d' r with
          | Some a, Some b => Some (contents a, contents b)
          | _, _ => None
          end
      | _, _ => None
      end
  end.

(** Concatenating the two sides gives [items]: as arrays of children, or
    as text. *)
Definition joined (sides : Seq * Seq) (items : list Item) : Prop :=
  match sides with
  | (Arr a, Arr b) => a ++ b = items
  | (Str a, Str b) => a +:+ b = join items
  | _ => False
  end.

(** *** Positions *)

(** Characters of text in the first [n] fragments, markers skipped. *)
Definition textBefore (n : nat) (fragments : list Boromir) : Z :=
  fragmentsLength (filter (fun r => isMarker r = false) (take n fragments)).

(** The record reached from [r] by taking, at each level, the child with
    the given index. *)
Fixpoint descend (path : list nat) (r : Boromir) : option Boromir :=
  match path with
  | [] => Some r
  | i :: rest =>
      match children r !! i with
      | Some c => descend rest c
      | None => None
      end
  end.

(** Where a Location is: for each frame below the root frame, the index
    of the record that frame is positioned on among its siblings. *)
Definition trailOf (loc : Location) : list nat :=
  map (fun f => length (lefts f)) (tail (frames loc)).

(** *** What [update] makes of a tree *)

Definition shapeName (s : Shape) : string :=
  match s with mkShape n _ _ _ _ _ _ _ _ => n end.

Definition shapeText (s : Shape) : string :=
  match s with mkShape _ t _ _ _ _ _ _ _ => t end.

Definition shapeIsText (s : Shape) : bool := String.eqb "#text" (shapeName s).

(** The structure of a plain text node. *)
Definition textShape (t : string) : Shape :=
  mkShape "#text" t [] [] false None None false None.

(** What the callback of [update] returns for a record of structure [s]:
    nothing for a marker, the defragmented text for a fragmented text, the
    record with an outline for another element, the record itself for a
    text node. *)
Definition tidied (s : Shape) : list Shape :=
  match s with
  | mkShape n t kids st m mn b f o =>
      if m then []
      else if String.eqb "Q" n then
        let joined := String.concat "" (map shapeText
                                          (filter (fun k => shapeIsText k = true) kids)) in
        match o with
        | Some orig => if String.eqb (text orig) joined then [shape orig]
                       else [textShape joined]
        | None => [textShape joined]
        end
      else if negb (String.eqb "#text" n) then
        [mkShape n t kids
           (("outline"%string,
             if Nat.eqb (length kids) 0
             then "3px solid rgba(150, 50, 50, 0.3)"%string
             else "3px solid rgba(50, 150, 50, 0.3)"%string) :: st)
           m mn b f o]
      else [s]
  end.

(** The records that take the place of [r] when the tree is rebuilt by
    [update]: leaves are tidied as they are, inner nodes after their
    children. *)
Fixpoint cleaned (r : Boromir) : list Shape :=
  match r with
  | mkBoromir _ n t kids st m mn b f o =>
      if isLeaf r then tidied (shape r)
      else tidied (mkShape n t (flat_map cleaned kids) st m mn b f o)
  end.

(** The offset of a leaf among the rebuilt siblings before it: their
    number, or under a fragmented text the length of their text. *)
Definition offsetAmong (underQ : bool) (before : list Shape) : Z :=
  if underQ
  then foldr (fun s sum => Z.of_nat (String.length (shapeText s)) + sum) 0
         (filter (fun k => shapeIsText k = true) before)
  else Z.of_nat (length before).

(** The names and paths [update] records for the markers met in [r], which
    comes after the rebuilt siblings [before] under the trail [trail]. *)
Fixpoint marksOf (trail : list Z) (underQ : bool) (before : list Shape)
  (r : Boromir) : list (option string * list Z) :=
  match r with
  | mkBoromir _ n _ kids _ m mn _ _ _ =>
      if isLeaf r then
        if m then [(mn, trail ++ [offsetAmong underQ before])] else []
      else
        (fix among (kids : list Boromir) (seen : list Shape) :=
           match kids with
           | [] => []
           | k :: rest =>
               marksOf (trail ++ [Z.of_nat (length before)]) (String.eqb "Q" n)
                 seen k
               ++ among rest (seen ++ cleaned k)
           end) kids []
  end.

Fixpoint marksAmong (trail : list Z) (underQ : bool) (before : list Shape)
  (kids : list Boromir) : list (option string * list Z) :=
  match kids with
  | [] => []
  | k :: rest =>
      marksOf trail underQ before k
      ++ marksAmong trail underQ (before ++ cleaned k) rest
  end.

(** The walk of [update], started on [c] below the root, steps over what
    it put in the place of [c]: the records of [cleaned c], with the
    markers of [c] recorded. *)
Definition tidiesPostOrder (c : Boromir) : Prop :=
  ∀ (ls rs : list Boromir) (fs : list Location) (pls : list Boromir)
    (p : Boromir) (prs : list Boromir) (pfs : list Location) (trail : list Z)
    (paths : list (option string * list Z)) (h : Heap),
  ∃ k out h',
    (∀ fuel,
       walkPostOrderLoop (k + fuel) updateMutate
         (recLoc ls (c :: rs) (fs ++ [recLoc pls (p :: prs) pfs])) trail paths h
       = walkPostOrderLoop fuel updateMutate
           (recLoc (ls ++ out) rs (fs ++ [recLoc pls (p :: prs) pfs])) trail
           (paths ++ marksOf trail (isFragmentedText p) (map shape ls) c) h')
    ∧ map shape out = cleaned c.

(** No marker at or below a record of this structure. *)
Fixpoint markerFree (s : Shape) : bool :=
  match s with
  | mkShape _ _ kids _ m _ _ _ _ => negb m && forallb markerFree kids
  end.

(** Every marker of [r] is where the walk of [update] comes by: none is
    inside a leaf that is not a marker (a text node, a void element) or
    inside the original of a fragmented text. *)
Fixpoint settled (r : Boromir) : bool :=
  match r with
  | mkBoromir _ n _ kids _ m _ _ _ o =>
      m || ((if String.eqb "Q" n
             then match o with
                  | Some orig => markerFree (shape orig)
                  | None => true
                  end
             else true)
            && (if isLeaf r
                then forallb (fun k => markerFree (shape k)) kids
                else forallb settled kids))
  end.

End Vocabulary.

(** ** Sample trees and Locations *)

(** [<div><p>ab<br></p>cd</div>] *)
Definition sampleP : Boromir (list Z) :=
  element 2 "P" [textNode 3 "ab"; element 4 "BR" []].

Definition sampleTree : Boromir (list Z) :=
  element 1 "DIV" [sampleP; textNode 5 "cd"].

(** The Locations on the way from the root of [sampleTree] into the text
    ["ab"], between [a] and [b]. *)
Definition sampleRoot : Location (list Z) := create sampleTree.

Definition sampleInDiv : Location (list Z) :=
  recLoc [] [sampleP; textNode 5 "cd"] [sampleRoot].

Definition sampleInP : Location (list Z) :=
  recLoc [] [textNode 3 "ab"; element 4 "BR" []] [sampleRoot; sampleInDiv].

Definition sampleInText : Location (list Z) :=
  mkLocation [IStr "a"] (Arr [IStr "b"]) [sampleRoot; sampleInDiv; sampleInP].

(** The Location [down] returns on the text node ["ab"] of the paragraph:
    its [rights] is the text itself, a string. *)
Definition sampleEnteredText : Location (list Z) :=
  mkLocation [] (Str "ab") [sampleRoot; sampleInDiv; sampleInP].

(** Fragments ["ab"], ["cd"] without markers. *)
Definition sampleFragments : Boromir (list Z) :=
  element 10 "Q" [textNode 11 "ab"; textNode 12 "cd"].

(** A fragmented text whose fragments still spell its original, and one
    that was edited. *)
Definition sampleOriginal : Boromir (list Z) := textNode 23 "abc".

Definition sampleUnchanged : Boromir (list Z) :=
  mkBoromir 20 "Q" "" [textNode 21 "ab"; textNode 22 "c"] [] false None None
    true (Some sampleOriginal).

Definition sampleEdited : Boromir (list Z) :=
  mkBoromir 20 "Q" "" [textNode 21 "ab"; textNode 22 "d"] [] false None None
    true (Some sampleOriginal).

(** A marker as [Marker] builds it, a tree that holds it next to the text
    of the paragraph, and a tree that holds it inside another marker. *)
Definition sampleMarker : Boromir (list Z) :=
  mkBoromir 30 "CODE" "" [textNode 31 "1"] [] true (Some "start"%string)
    (Some [0; 0; 1]) false None.

Definition sampleMarked : Boromir (list Z) :=
  element 1 "DIV"
    [element 2 "P" [textNode 3 "ab"; sampleMarker]; textNode 5 "cd"].

Definition sampleOuterMarker : Boromir (list Z) :=
  mkBoromir 32 "CODE" "" [sampleMarker] [] true (Some "end"%string)
    (Some [0; 1]) false None.

Definition sampleNested : Boromir (list Z) :=
  element 1 "DIV" [sampleOuterMarker; textNode 5 "cd"].

(** An ordinary [<q>x<b></b></q>] of the content. *)
Definition sampleQuote : Boromir (list Z) :=
  element 40 "Q" [textNode 41 "x"; element 42 "B" []].

(** * Properties *)

Section Properties.

Context {Boundary : Type} `{!Host Boundary}.

Local Abbreviation Boromir := (Boromir Boundary).
Local Abbreviation Item := (Item Boundary).
Local Abbreviation Seq := (Seq Boundary).
Local Abbreviation Location := (Location Boundary).
Local Abbreviation Replacement := (Replacement Boundary).

(** ** Slicing *)

Lemma clampIndex_le (len : nat) (i : Z) : (clampIndex len i ≤ len)%nat.
Proof. unfold clampIndex. destruct (i <? 0) eqn:E; lia. Qed.

Lemma clampIndex_nonneg (len : nat) (i : Z) :
  0 ≤ i → clampIndex len i = Nat.min (Z.to_nat i) len.
Proof. intros Hi. unfold clampIndex. destruct (i <? 0) eqn:E; lia. Qed.

Lemma slice_tail {A} (l : list A) (start : Z) :
  slice l start None = drop (clampIndex (length l) start) l.
Proof.
  unfold slice. apply take_ge. rewrite length_drop. lia.
Qed.

Lemma slice_head {A} (l : list A) (stop : Z) :
  slice l 0 (Some stop) = take (clampIndex (length l) stop) l.
Proof.
  unfold slice. change (clampIndex (length l) 0) with 0%nat.
  rewrite drop_0. f_equal. lia.
Qed.

(** The two halves a stride cuts an array into make up the array. *)
Lemma slice_split {A} (l : list A) (cut : Z) :
  slice l 0 (Some cut) ++ slice l cut None = l.
Proof. rewrite slice_head, slice_tail. apply take_drop. Qed.

Lemma slice_whole {A} (l : list A) : slice l 0 None = l.
Proof. rewrite slice_tail. reflexivity. Qed.

Lemma slice_tail_excess {A} (l : list A) (start : Z) :
  Z.of_nat (length l) ≤ start → slice l start None = [].
Proof.
  intros Hs. rewrite slice_tail. apply drop_ge.
  rewrite clampIndex_nonneg by lia. lia.
Qed.

Lemma slice_head_excess {A} (l : list A) (stop : Z) :
  Z.of_nat (length l) ≤ stop → slice l 0 (Some stop) = l.
Proof.
  intros Hs. rewrite slice_head. apply take_ge.
  rewrite clampIndex_nonneg by lia. lia.
Qed.

Lemma slice_last_excess {A} (l : list A) (stride : Z) :
  Z.of_nat (length l) ≤ stride → slice l (- stride) None = l.
Proof.
  intros Hs. rewrite slice_tail. unfold clampIndex.
  destruct (- stride <? 0) eqn:E.
  - replace (Z.to_nat _) with 0%nat by lia. reflexivity.
  - assert (length l = 0%nat) as Hl by lia.
    destruct l; [by rewrite drop_nil | discriminate].
Qed.

Lemma slice_init_excess {A} (l : list A) (stride : Z) :
  Z.of_nat (length l) ≤ stride → slice l 0 (Some (- stride)) = [].
Proof.
  intros Hs. rewrite slice_head. unfold clampIndex.
  destruct (- stride <? 0) eqn:E.
  - replace (Z.to_nat _) with 0%nat by lia. reflexivity.
  - assert (length l = 0%nat) as Hl by lia.
    destruct l; [by rewrite take_nil | discriminate].
Qed.

Lemma slice_drop_last {A} (l : list A) (x : A) :
  slice (l ++ [x]) 0 (Some (-1)) = l.
Proof.
  rewrite slice_head. unfold clampIndex. simpl (_ <? _).
  rewrite length_app. simpl.
  replace (Z.to_nat _) with (length l) by lia.
  rewrite take_app_length. reflexivity.
Qed.

Lemma slice_rest {A} (x : A) (l : list A) : slice (x :: l) 1 None = l.
Proof. rewrite slice_tail. reflexivity. Qed.

(** ** Navigation and splice on excess and zero counts *)

(** C8 (amended). On a Location whose [rights] is an array: with a stride
    above the number of siblings on its side, [prev] empties [lefts] and
    [next] empties [rights], everything moving to the other side; [splice]
    with a drop count above the length of [rights] leaves the replacement
    items alone on the right; and [prev] and [next] keep [lefts ++ rights]
    for every stride. The three functions are total: they return a
    Location, never an exception. *)
Theorem excess_counts_degrade (loc : Location) (rs : list Item)
  (stride num : Z) (any : option Z) (replacement : Replacement) :
  rights loc = Arr rs →
  (Z.of_nat (length (lefts loc)) < stride →
     prev loc (Some stride)
     = mkLocation [] (Arr (lefts loc ++ rs)) (frames loc)) ∧
  (Z.of_nat (length rs) < stride →
     next loc (Some stride)
     = mkLocation (lefts loc ++ rs) (Arr []) (frames loc)) ∧
  (Z.of_nat (length rs) < num →
     splice loc num replacement
     = mkLocation (lefts loc)
         (Arr match replacement with
              | ROne r => [IRec r]
              | RMany items => items
              | RUndefined => []
              end)
         (frames loc)) ∧
  concat (lefts (prev loc any)) (rights (prev loc any)) = lefts loc ++ rs ∧
  concat (lefts (next loc any)) (rights (next loc any)) = lefts loc ++ rs.
Proof.
  intros Hrs. unfold prev, next, splice, strideOr1. rewrite Hrs. simpl.
  repeat split.
  - intros Hlt. rewrite slice_init_excess, slice_last_excess by lia. reflexivity.
  - intros Hlt. rewrite slice_head_excess, slice_tail_excess by lia. reflexivity.
  - intros Hlt. rewrite slice_tail_excess by lia. rewrite app_nil_r. reflexivity.
  - rewrite app_assoc, slice_split. reflexivity.
  - rewrite <- app_assoc, slice_split. reflexivity.
Qed.

(** C9 (amended). On a Location whose [rights] is an array, [next] with
    stride 0 is the identity, but [prev] with stride 0 moves all of [lefts]
    to the right (slicing with [-0] is slicing with [0]), so it is not the
    identity once [lefts] is non-empty. *)
Theorem zero_stride_asymmetry (loc : Location) (rs : list Item) :
  rights loc = Arr rs →
  next loc (Some 0) = loc ∧
  prev loc (Some 0) = mkLocation [] (Arr (lefts loc ++ rs)) (frames loc) ∧
  (lefts loc ≠ [] → prev loc (Some 0) ≠ loc).
Proof.
  intros Hrs. destruct loc as [ls r fs]. simpl in Hrs. subst r.
  unfold prev, next, strideOr1. simpl.
  change (- 0) with 0. rewrite !slice_whole.
  assert (slice ls 0 (Some 0) = []) as -> by (rewrite slice_head; reflexivity).
  assert (slice rs 0 (Some 0) = []) as -> by (rewrite slice_head; reflexivity).
  rewrite app_nil_r. repeat split.
  intros Hne Heq. simpl in Hne. inversion Heq. congruence.
Qed.


(** ** Fragmented text *)

Lemma fragmentsLength_from (fragments : list Boromir) (z : Z) :
  foldl (fun sum record => sum + Z.of_nat (String.length (text record))) z
    fragments
  = z + fragmentsLength fragments.
Proof.
  unfold fragmentsLength. revert z.
  induction fragments as [|f rest IH]; intros z; simpl; [lia |].
  rewrite IH, (IH (0 + _)). lia.
Qed.

Lemma fragmentsLength_cons (f : Boromir) (rest : list Boromir) :
  fragmentsLength (f :: rest)
  = Z.of_nat (String.length (text f)) + fragmentsLength rest.
Proof.
  unfold fragmentsLength at 1. simpl. rewrite fragmentsLength_from. lia.
Qed.

Lemma fragmentsLength_nonneg (fragments : list Boromir) :
  0 ≤ fragmentsLength fragments.
Proof.
  induction fragments as [|f rest IH]; [reflexivity |].
  rewrite fragmentsLength_cons. lia.
Qed.

(** The loop of [fragmentedOffset] runs off the end exactly when the
    remaining offset is larger than the remaining text. *)
Lemma fragmentedOffsetFrom_bounds (fragments : list Boromir) :
  ∀ index remainder, 0 < remainder →
    let total := fragmentsLength (filter (fun r => isMarker r = false) fragments) in
    (total < remainder →
       fragmentedOffsetFrom fragments index remainder = Throw TextOffsetOutOfBounds)
    ∧ (remainder ≤ total →
       ∃ path, fragmentedOffsetFrom fragments index remainder = Ok path).
Proof.
  induction fragments as [|f rest IH]; intros index remainder Hpos; simpl.
  - split; [reflexivity | intros Hle; unfold fragmentsLength in Hle; simpl in Hle; lia].
  - destruct (isMarker f) eqn:Hm.
    + rewrite filter_cons_False by (rewrite Hm; discriminate).
      apply IH, Hpos.
    + rewrite filter_cons_True by assumption.
      rewrite fragmentsLength_cons.
      destruct (remainder - Z.of_nat (String.length (text f)) =? 0) eqn:E0.
      * split; [| eauto].
        intros Hlt.
        pose proof (fragmentsLength_nonneg (filter (fun r => isMarker r = false) rest)).
        lia.
      * destruct (remainder - Z.of_nat (String.length (text f)) <? 0) eqn:E1.
        -- split; [| eauto].
           intros Hlt.
           pose proof (fragmentsLength_nonneg (filter (fun r => isMarker r = false) rest)).
           lia.
        -- destruct (IH (index + 1) (remainder - Z.of_nat (String.length (text f))))
             as [Hthrow Hok]; [lia |].
           split; intros Hc; [apply Hthrow | apply Hok]; lia.
Qed.

(** C3. On fragments ["ab"], ["cd"] without markers the offsets 0, 2, 3, 4
    resolve to [[0]], [[1]], [[1; 1]], [[2]] and offset 5 is out of
    bounds; in general, for a non-negative offset, [fragmentedOffset]
    throws the out-of-bounds error exactly when the offset exceeds the
    total length of the fragments, and returns a path otherwise. *)
Theorem fragmentedOffset_table_and_bounds (record : Boromir) (offset : Z) :
  0 ≤ offset →
  ((fragmentedOffset record offset = Throw TextOffsetOutOfBounds
    ↔ fragmentsTotal record < offset)
   ∧ (offset ≤ fragmentsTotal record →
      ∃ path, fragmentedOffset record offset = Ok path))
  ∧ (map text (children record) = ["ab"; "cd"]%string →
     Forall (fun r => isMarker r = false) (children record) →
     fragmentedOffset record 0 = Ok [0]
     ∧ fragmentedOffset record 2 = Ok [1]
     ∧ fragmentedOffset record 3 = Ok [1; 1]
     ∧ fragmentedOffset record 4 = Ok [2]
     ∧ fragmentedOffset record 5 = Throw TextOffsetOutOfBounds).
Proof.
  intros Hoff. split.
  - unfold fragmentedOffset, fragmentsTotal.
    pose proof (fragmentsLength_nonneg
                  (filter (fun r => isMarker r = false) (children record))) as Hnn.
    destruct (offset =? 0) eqn:E0.
    + split; [split; [discriminate | lia] | eauto].
    + destruct (fragmentedOffsetFrom_bounds (children record) 0 offset) as [Hthrow Hok];
        [lia |].
      split; [split |]; [| exact Hthrow | exact Hok].
      intros Hfail.
      destruct (Z.lt_ge_cases
                  (fragmentsLength (filter (fun r => isMarker r = false)
                                      (children record))) offset) as [Hlt | Hge];
        [exact Hlt |].
      destruct (Hok Hge) as [path Hpath]. congruence.
  - intros Htexts Hplain. unfold fragmentedOffset.
    destruct (children record) as [|a [|b [|c rest]]]; try discriminate.
    inversion Htexts as [[Ha Hb]].
    inversion Hplain as [|? ? Hma Hrest]; subst.
    inversion Hrest as [|? ? Hmb _]; subst.
    simpl. rewrite Hma, Hmb, Ha, Hb. simpl. repeat split; reflexivity.
Qed.

(** ** Defragmentation *)

Lemma append_empty (s : string) : s +:+ "" = s.
Proof.
  induction s as [|c s IH]; [reflexivity |].
  change (String c (s +:+ "") = String c s). f_equal. exact IH.
Qed.

Lemma text_children_without_markers (records : list Boromir) :
  markersAreElements records →
  filter (fun r => isTextRecord r = true) records
  = filter (fun r => isTextRecord r = true ∧ isMarker r = false) records.
Proof.
  intros Hm. induction Hm as [|r rest Hr _ IH]; [reflexivity |].
  destruct (isTextRecord r) eqn:Ht.
  - destruct (isMarker r) eqn:Hmr; [specialize (Hr eq_refl); congruence |].
    rewrite !filter_cons_True by (rewrite ?Ht, ?Hmr; auto).
    f_equal. exact IH.
  - rewrite !filter_cons_False by (rewrite Ht; intuition discriminate).
    exact IH.
Qed.

(** C4. [defragmentText] joins the text of the non-marker Text children.
    If the joined text is the text of [original], the result is [original]
    itself and nothing is allocated; otherwise (a different text, or no
    [original]) the result is a Text record allocated by this call that
    carries the joined text. *)
Theorem defragmentText_identity (record : Boromir) (h : Heap) :
  markersAreElements (children record) →
  (∀ o, original record = Some o → text o = fragmentsText record →
        defragmentText record h = Ok (o, h))
  ∧ ((∀ o, original record = Some o → text o ≠ fragmentsText record) →
     ∃ fresh h',
       defragmentText record h = Ok (fresh, h')
       ∧ fresh = textNode (S (nextId h)) (fragmentsText record)
       ∧ (nextId h ≤ rid fresh < nextId h')%nat).
Proof.
  intros Hm. unfold defragmentText, fragmentsText.
  rewrite <- (text_children_without_markers _ Hm).
  set (joined := String.concat "" _).
  split.
  - intros o Ho Heq. rewrite Ho.
    rewrite (proj2 (String.eqb_eq _ _) Heq). reflexivity.
  - intros Hne.
    assert (createRecord "#text" (Some [IStr joined]) h
            = Ok (textNode (S (nextId h)) joined,
                  mkHeap (S (S (nextId h))) (markerCount h))) as Hfresh.
    { unfold createRecord, contentsWith, newTextNode, setText, bind, ret, fresh,
        textNode. simpl.
      rewrite append_empty. reflexivity. }
    exists (textNode (S (nextId h)) joined),
      (mkHeap (S (S (nextId h))) (markerCount h)).
    split; [| split; [reflexivity | simpl; lia]].
    destruct (original record) as [o|] eqn:Ho; [| exact Hfresh].
    destruct (String.eqb (text o) joined) eqn:E; [| exact Hfresh].
    apply String.eqb_eq in E. exfalso. exact (Hne o eq_refl E).
Qed.

(** ** Sessions without boundaries *)

(** C2. With an empty boundary map, [zipper] returns the root Location of
    the tree it was given and [root] leaves it in place: the cursor record
    is the tree itself, hence structurally equal to it. *)
Theorem zipper_roundtrip (T : Boromir) (h : Heap) :
  ∃ loc,
    (let* session := zipper T [] in root (fst session)) h = Ok (loc, h)
    ∧ after loc = Some (IRec T).
Proof.
  exists (create T). split; reflexivity.
Qed.

(** ** Boundaries outside the editable root *)

Lemma clipCommonRootFrom_diverges (root path : list Z) (i : nat) :
  path !! i ≠ root !! i →
  ∀ n start, (start ≤ i < start + n)%nat →
    clipCommonRootFrom root path start n = [].
Proof.
  intros Hneq. induction n as [|n IH]; intros start Hrange; [lia |].
  simpl. destruct (decide (path !! start = root !! start)) as [Heq|]; [| reflexivity].
  apply IH. destruct (decide (start = i)) as [->|]; [contradiction | lia].
Qed.

(** C7. A boundary whose path leaves the path of the session root before
    that path ends is clipped to the empty path; [markTree] then answers
    with the tree it was given and a null marker, touching nothing, and
    [markup] records the null marker under the name and goes on with the
    remaining boundaries. *)
Theorem out_of_scope_boundary (tree : Location) (element : Boromir)
  (b : Boundary) (key : string) (markers : gmap string (option Boromir))
  (rest : list (string * Boundary)) (h : Heap) (i : nat) :
  after tree = Some (IRec element) →
  (i < length (pathOfFront element))%nat →
  pathOfBoundary b !! i ≠ pathOfFront element !! i →
  clipCommonRoot (pathOfFront element) (pathOfBoundary b) = []
  ∧ markTree tree b key h = Ok ((tree, None), h)
  ∧ markupFrom (tree, markers) ((key, b) :: rest) h
    = markupFrom (tree, <[key := None]> markers) rest h.
Proof.
  intros Hafter Hi Hneq.
  assert (clipCommonRoot (pathOfFront element) (pathOfBoundary b) = []) as Hclip.
  { unfold clipCommonRoot. apply (clipCommonRootFrom_diverges _ _ i Hneq). lia. }
  assert (markTree tree b key h = Ok ((tree, None), h)) as Hmark.
  { unfold markTree, bind, lift. rewrite Hafter. simpl. rewrite Hclip. reflexivity. }
  repeat split; [exact Hclip | exact Hmark |].
  simpl. unfold bind at 1. unfold markupStep, bind at 1. simpl.
  rewrite Hmark. reflexivity.
Qed.

(** ** Records as trees *)

Lemma Boromir_tree_ind (P : Boromir → Prop) :
  (∀ r, Forall P (children r) → P r) → ∀ r, P r.
Proof.
  intros step. fix IH 1. intros [i n t kids st m mn b f o].
  apply step. simpl.
  induction kids as [|k kids IHkids]; constructor; [apply IH | exact IHkids].
Qed.

(** ** Locations over records *)

Local Arguments contentsWith : simpl never.
Local Arguments slice : simpl never.
Local Arguments up : simpl never.
Local Arguments next : simpl never.
Local Arguments splice : simpl never.
Local Arguments rebuild : simpl never.

Lemma wrapAll_records (l : list Boromir) (h : Heap) :
  wrapAll (map IRec l) h = Ok (l, h).
Proof.
  induction l as [|r l IH]; [reflexivity |].
  simpl. unfold bind. rewrite IH. reflexivity.
Qed.

Lemma contentsWith_records (p : Boromir) (kids : list Boromir) (h : Heap) :
  contentsWith p (Arr (map IRec kids)) h = Ok (rebuild (nextId h) p kids, bump h).
Proof.
  unfold contentsWith, rebuild. destruct (isTextRecord p); [reflexivity |].
  unfold bind. rewrite wrapAll_records. reflexivity.
Qed.

Lemma isAtEnd_recLoc (ls rs : list Boromir) (fs : list Location) :
  isAtEnd (recLoc ls rs fs) = match rs with [] => true | _ => false end.
Proof. destruct rs; reflexivity. Qed.

Lemma next_recLoc (ls : list Boromir) (r : Boromir) (rs : list Boromir)
  (fs : list Location) :
  next (recLoc ls (r :: rs) fs) None = recLoc (ls ++ [r]) rs fs.
Proof.
  unfold next, recLoc, strideOr1. simpl.
  rewrite slice_rest, map_app. reflexivity.
Qed.

Lemma up_recLoc (ls rs : list Boromir) (fs : list Location)
  (pls : list Boromir) (p : Boromir) (prs : list Boromir)
  (pfs : list Location) (h : Heap) :
  up (recLoc ls rs (fs ++ [recLoc pls (p :: prs) pfs])) h
  = Ok (recLoc pls (rebuild (nextId h) p (ls ++ rs) :: prs) fs, bump h).
Proof.
  unfold up. simpl. rewrite last_snoc. unfold bind, lift. simpl.
  rewrite <- map_app, contentsWith_records. unfold ret.
  rewrite slice_drop_last, slice_rest. reflexivity.
Qed.

Lemma shape_rebuild (i : nat) (p : Boromir) (kids : list Boromir) :
  isTextRecord p = false →
  map shape kids = map shape (children p) →
  shape (rebuild i p kids) = shape p.
Proof.
  intros Ht Hk. unfold rebuild. rewrite Ht. destruct p. simpl in *.
  rewrite Hk. reflexivity.
Qed.

Lemma isLeaf_false_not_text (r : Boromir) :
  isLeaf r = false → isTextRecord r = false.
Proof.
  unfold isLeaf, isTextRecord. intros H.
  destruct (String.eqb "#text" (name r)); [discriminate | reflexivity].
Qed.

(** ** The post-order walk *)

Lemma isVoid_recLoc (ls : list Boromir) (r : Boromir) (rs : list Boromir)
  (fs : list Location) :
  isVoid (recLoc ls (r :: rs) fs) = Ok (isLeaf r).
Proof. reflexivity. Qed.

Lemma filterTextRecords_records (l : list Boromir) :
  filterTextRecords (map IRec l)
  = Ok (filter (fun r => isTextRecord r = true) l).
Proof.
  induction l as [|r l IH]; [reflexivity |].
  simpl. rewrite IH. simpl. destruct (isTextRecord r) eqn:E.
  - rewrite filter_cons_True by assumption. reflexivity.
  - rewrite filter_cons_False by congruence. reflexivity.
Qed.

Lemma jump_replace_one (ls : list Boromir) (r : Boromir) (rs : list Boromir)
  (fs : list Location) (x : Boromir) :
  jump (replace (recLoc ls (r :: rs) fs) (RMany [IRec x]))
    (Z.of_nat (length [IRec x]))
  = recLoc (ls ++ [x]) rs fs.
Proof.
  unfold replace, splice, jump. simpl.
  rewrite slice_rest. apply (next_recLoc ls x rs fs).
Qed.

Lemma isRoot_snoc (fs : list Location) (f : Location) (ls : list Item)
  (rs : Seq) :
  isRoot (mkLocation ls rs (fs ++ [f])) = false.
Proof.
  unfold isRoot. simpl. rewrite length_app. simpl.
  destruct (length fs + 1)%nat eqn:E; [lia | reflexivity].
Qed.

Lemma isRoot_recLoc_snoc (ls rs : list Boromir) (fs : list Location)
  (f : Location) :
  isRoot (recLoc ls rs (fs ++ [f])) = false.
Proof. apply isRoot_snoc. Qed.

Lemma isFragmentedText_rebuild (i : nat) (p : Boromir) (kids : list Boromir) :
  isFragmentedText (rebuild i p kids) = isFragmentedText p.
Proof. unfold rebuild. destruct (isTextRecord p); reflexivity. Qed.

(** A leaf is handed to the callback where it stands, with its offset
    added to the trail: the length of the text fragments before it under a
    fragmented text, the number of siblings before it otherwise. *)
Lemma postOrder_turn_leaf_offset {Acc : Type}
  (mutate : Boromir → list Z → Acc → M (list Item * Acc))
  (ls : list Boromir) (r : Boromir) (rs : list Boromir)
  (fs : list Location) (pls : list Boromir) (p : Boromir) (prs : list Boromir)
  (pfs : list Location) (trail : list Z) (acc : Acc) (h : Heap) :
  isLeaf r = true →
  walkPostOrderTurn mutate
    (recLoc ls (r :: rs) (fs ++ [recLoc pls (p :: prs) pfs])) trail acc h
  = (let* res :=
       mutate r
         (trail ++ [if isFragmentedText p
                    then fragmentsLength (filter (fun r => isTextRecord r = true) ls)
                    else Z.of_nat (length ls)]) acc in
     ret (inr (jump (replace (recLoc ls (r :: rs)
                                (fs ++ [recLoc pls (p :: prs) pfs]))
                       (RMany (fst res)))
                 (Z.of_nat (length (fst res))), trail, snd res))) (bump h).
Proof.
  intros Hleaf. unfold walkPostOrderTurn.
  rewrite isAtEnd_recLoc, isVoid_recLoc, Hleaf.
  unfold bind at 1. unfold lift at 1. cbv beta iota.
  unfold bind at 1. rewrite up_recLoc.
  unfold bind at 1. unfold lift at 1. simpl (asRecord _).
  cbv beta iota. rewrite isFragmentedText_rebuild.
  destruct (isFragmentedText p).
  - unfold bind at 1. unfold bind at 1. unfold lift at 1.
    cbn [lefts recLoc]. rewrite filterTextRecords_records.
    unfold ret at 1. reflexivity.
  - unfold bind at 1. unfold ret at 1. cbn [lefts recLoc].
    rewrite length_map. reflexivity.
Qed.

Lemma postOrder_turn_leaf (ls : list Boromir) (r : Boromir) (rs : list Boromir)
  (fs : list Location) (pls : list Boromir) (p : Boromir) (prs : list Boromir)
  (pfs : list Location) (trail : list Z) (h : Heap) :
  isLeaf r = true →
  walkPostOrderTurn identityMutate
    (recLoc ls (r :: rs) (fs ++ [recLoc pls (p :: prs) pfs])) trail tt h
  = Ok (inr (recLoc (ls ++ [r]) rs (fs ++ [recLoc pls (p :: prs) pfs]), trail, tt),
        bump h).
Proof.
  intros Hleaf. rewrite postOrder_turn_leaf_offset by exact Hleaf.
  unfold bind, identityMutate, ret. cbn [fst snd].
  rewrite jump_replace_one. reflexivity.
Qed.

(** An inner node is entered; below the root the sibling offset goes on the
    trail. *)
Lemma postOrder_turn_down {Acc : Type}
  (mutate : Boromir → list Z → Acc → M (list Item * Acc))
  (ls : list Boromir) (r : Boromir) (rs : list Boromir) (fs : list Location)
  (trail : list Z) (acc : Acc) (h : Heap) :
  isLeaf r = false →
  walkPostOrderTurn mutate (recLoc ls (r :: rs) fs) trail acc h
  = Ok (inr (recLoc [] (children r) (fs ++ [recLoc ls (r :: rs) fs]),
             (if isRoot (recLoc ls (r :: rs) fs) then trail
              else trail ++ [Z.of_nat (length (map IRec ls))]),
             acc), h).
Proof.
  intros Hleaf. unfold walkPostOrderTurn.
  rewrite isAtEnd_recLoc, isVoid_recLoc, Hleaf.
  unfold bind, lift, ret, down. simpl.
  unfold contents. rewrite (isLeaf_false_not_text _ Hleaf). reflexivity.
Qed.

(** At the end of the children the parent is rebuilt; below the root it is
    handed to the callback and stepped over. *)
Lemma postOrder_turn_up (done : list Boromir) (fs : list Location)
  (g : Location) (ls : list Boromir) (r : Boromir) (rs : list Boromir)
  (pfs : list Location) (trail : list Z) (h : Heap) :
  walkPostOrderTurn identityMutate
    (recLoc done [] ((fs ++ [g]) ++ [recLoc ls (r :: rs) pfs])) trail tt h
  = Ok (inr (recLoc (ls ++ [rebuild (nextId h) r done]) rs (fs ++ [g]),
             slice trail 0 (Some (-1)), tt), bump h).
Proof.
  unfold walkPostOrderTurn. rewrite isAtEnd_recLoc.
  unfold bind at 1. rewrite up_recLoc. rewrite app_nil_r.
  rewrite isRoot_recLoc_snoc.
  unfold bind, lift, identityMutate, ret. simpl (asRecord _).
  cbv beta iota. simpl (fst _). simpl (snd _).
  rewrite (jump_replace_one ls _ rs (fs ++ [g])). reflexivity.
Qed.

(** Rebuilding the root record ends the walk. *)
Lemma postOrder_turn_finish {Acc : Type}
  (mutate : Boromir → list Z → Acc → M (list Item * Acc))
  (done : list Boromir) (ls : list Boromir) (r : Boromir) (rs : list Boromir)
  (pfs : list Location) (trail : list Z) (acc : Acc) (h : Heap) :
  walkPostOrderTurn mutate (recLoc done [] [recLoc ls (r :: rs) pfs]) trail acc h
  = Ok (inl (recLoc ls (rebuild (nextId h) r done :: rs) [], acc), bump h).
Proof.
  unfold walkPostOrderTurn. rewrite isAtEnd_recLoc.
  pose proof (up_recLoc done [] [] ls r rs pfs h) as Hup.
  rewrite app_nil_l in Hup.
  unfold bind at 1. rewrite Hup.
  rewrite app_nil_r. reflexivity.
Qed.

Lemma walkPostOrderLoop_turn {Acc : Type}
  (mutate : Boromir → list Z → Acc → M (list Item * Acc))
  (fuel : nat) (loc loc' : Location) (trail trail' : list Z) (acc acc' : Acc)
  (h h' : Heap) :
  walkPostOrderTurn mutate loc trail acc h = Ok (inr (loc', trail', acc'), h') →
  walkPostOrderLoop (S fuel) mutate loc trail acc h
  = walkPostOrderLoop fuel mutate loc' trail' acc' h'.
Proof. intros Hturn. simpl. unfold bind. rewrite Hturn. reflexivity. Qed.

(** Siblings that walk are stepped over one after the other. *)
Lemma postOrder_siblings (pending : list Boromir) :
  Forall walksPostOrder pending →
  ∀ (done : list Boromir) (fs : list Location) (pls : list Boromir)
    (p : Boromir) (prs : list Boromir) (pfs : list Location) (trail : list Z)
    (h : Heap),
  ∃ k pending' h',
    (∀ fuel,
       walkPostOrderLoop (k + fuel) identityMutate
         (recLoc done pending (fs ++ [recLoc pls (p :: prs) pfs])) trail tt h
       = walkPostOrderLoop fuel identityMutate
           (recLoc (done ++ pending') [] (fs ++ [recLoc pls (p :: prs) pfs]))
           trail tt h')
    ∧ map shape pending' = map shape pending.
Proof.
  induction 1 as [|c pending Hc _ IH]; intros done fs pls p prs pfs trail h.
  - exists 0%nat, [], h. split; [| reflexivity].
    intros fuel. rewrite app_nil_r. reflexivity.
  - destruct (Hc done pending fs pls p prs pfs trail h)
      as (k1 & c' & h1 & Hrun1 & Hshape1).
    destruct (IH (done ++ [c']) fs pls p prs pfs trail h1)
      as (k2 & pending' & h2 & Hrun2 & Hshape2).
    exists (k1 + k2)%nat, (c' :: pending'), h2. split.
    + intros fuel.
      rewrite <- Nat.add_assoc, Hrun1, Hrun2, <- app_assoc. reflexivity.
    + simpl. rewrite Hshape1, Hshape2. reflexivity.
Qed.

(** Every record walks: a leaf in one turn, an inner node by entering it,
    walking its children and rebuilding it. *)
Lemma postOrder_subtree (r : Boromir) : walksPostOrder r.
Proof.
  induction r as [r IHkids] using Boromir_tree_ind.
  intros ls rs fs pls p prs pfs trail h.
  destruct (isLeaf r) eqn:Hleaf.
  - exists 1%nat, r, (bump h). split; [| reflexivity].
    intros fuel. apply walkPostOrderLoop_turn.
    apply postOrder_turn_leaf, Hleaf.
  - destruct (postOrder_siblings (children r) IHkids []
                (fs ++ [recLoc pls (p :: prs) pfs]) ls r rs
                (fs ++ [recLoc pls (p :: prs) pfs])
                (trail ++ [Z.of_nat (length (map IRec ls))]) h)
      as (k & kids' & h1 & Hrun & Hshape).
    exists (S (k + 1)), (rebuild (nextId h1) r kids'), (bump h1). split.
    + intros fuel.
      replace (S (k + 1) + fuel)%nat with (S (k + S fuel)) by lia.
      rewrite (walkPostOrderLoop_turn _ _ _ _ _ _ _ _ _ _
                 (postOrder_turn_down identityMutate ls r rs _ trail tt h Hleaf)).
      rewrite isRoot_recLoc_snoc, Hrun. rewrite app_nil_l.
      rewrite (walkPostOrderLoop_turn _ _ _ _ _ _ _ _ _ _
                 (postOrder_turn_up kids' fs _ ls r rs _ _ h1)).
      rewrite slice_drop_last. reflexivity.
    + apply shape_rebuild; [apply isLeaf_false_not_text, Hleaf | exact Hshape].
Qed.

(** C5 (amended). For every tree whose root record is not a leaf (not a
    text node, a marker or a void element), the post-order walk with the
    callback [record => [record]] ends, given enough fuel, at the root
    Location of a tree structurally equal to the input. *)
Theorem postOrder_identity_walk (T : Boromir) (h : Heap) :
  isVoid (create T) = Ok false →
  ∃ n T' h',
    (∀ fuel, (n ≤ fuel)%nat →
       walkPostOrder fuel (create T) identityMutate tt h
       = Ok ((create T', tt), h'))
    ∧ shape T' = shape T.
Proof.
  intros Hvoid.
  assert (isLeaf T = false) as Hleaf by (inversion Hvoid; reflexivity).
  pose proof (Forall_forall walksPostOrder (children T)) as [_ Hall].
  specialize (Hall (fun c _ => postOrder_subtree c)).
  destruct (postOrder_siblings (children T) Hall [] [] [] T [] []
              [] h) as (k & kids' & h1 & Hrun & Hshape).
  rewrite app_nil_l in Hrun.
  exists (S (k + 1)), (rebuild (nextId h1) T kids'), (bump h1). split.
  - intros fuel Hfuel.
    replace fuel with (S (k + S (fuel - S (k + 1)))) by lia.
    unfold walkPostOrder, root. simpl (reduceUp _ _). unfold bind at 1, ret at 1.
    change (create T) with (recLoc [] [T] []).
    rewrite (walkPostOrderLoop_turn _ _ _ _ _ _ _ _ _ _
               (postOrder_turn_down identityMutate [] T [] [] [] tt h Hleaf)).
    simpl (if isRoot _ then _ else _). rewrite app_nil_l, Hrun, app_nil_l.
    simpl. unfold bind.
    rewrite (postOrder_turn_finish identityMutate kids' [] T [] [] [] tt h1).
    reflexivity.
  - apply shape_rebuild; [apply isLeaf_false_not_text, Hleaf | exact Hshape].
Qed.

(** ** The pre-order search *)

Lemma seenBelow_unfold (m r : Boromir) :
  seenBelow m r = negb (isLeaf r) && existsb (seen m) (children r).
Proof. destruct r. reflexivity. Qed.

Lemma occurs_unfold (m r : Boromir) :
  occurs m r = sameObject r m || existsb (occurs m) (children r).
Proof. destruct r. reflexivity. Qed.

Lemma notTheMarker_recLoc (m : Boromir) (ls : list Boromir) (r : Boromir)
  (rs : list Boromir) (fs : list Location) :
  notTheMarker m (recLoc ls (r :: rs) fs) = negb (isHit m r).
Proof. reflexivity. Qed.

Lemma preOrder_hit (m : Boromir) (ls : list Boromir) (r : Boromir)
  (rs : list Boromir) (fs : list Location) (fuel : nat) (h : Heap) :
  isHit m r = true →
  walkPreOrderWhileLoop (S fuel) (notTheMarker m) (recLoc ls (r :: rs) fs) h
  = Ok (recLoc ls (r :: rs) fs, h).
Proof.
  intros Hhit. cbn [walkPreOrderWhileLoop].
  rewrite notTheMarker_recLoc, Hhit. reflexivity.
Qed.

Lemma preOrder_leaf (m : Boromir) (ls : list Boromir) (r : Boromir)
  (rs : list Boromir) (fs : list Location) (fuel : nat) (h : Heap) :
  isHit m r = false → isLeaf r = true →
  walkPreOrderWhileLoop (S fuel) (notTheMarker m) (recLoc ls (r :: rs) fs) h
  = walkPreOrderWhileLoop fuel (notTheMarker m) (recLoc (ls ++ [r]) rs fs) h.
Proof.
  intros Hhit Hleaf. cbn [walkPreOrderWhileLoop].
  rewrite notTheMarker_recLoc, Hhit, isAtEnd_recLoc, isVoid_recLoc, Hleaf.
  unfold bind, lift. simpl. rewrite next_recLoc. reflexivity.
Qed.

Lemma preOrder_down (m : Boromir) (ls : list Boromir) (r : Boromir)
  (rs : list Boromir) (fs : list Location) (fuel : nat) (h : Heap) :
  isHit m r = false → isLeaf r = false →
  walkPreOrderWhileLoop (S fuel) (notTheMarker m) (recLoc ls (r :: rs) fs) h
  = walkPreOrderWhileLoop fuel (notTheMarker m)
      (recLoc [] (children r) (fs ++ [recLoc ls (r :: rs) fs])) h.
Proof.
  intros Hhit Hleaf. cbn [walkPreOrderWhileLoop].
  rewrite notTheMarker_recLoc, Hhit, isAtEnd_recLoc, isVoid_recLoc, Hleaf.
  unfold bind, lift, down. simpl.
  unfold contents. rewrite (isLeaf_false_not_text _ Hleaf). reflexivity.
Qed.

Lemma preOrder_up (m : Boromir) (done : list Boromir) (fs : list Location)
  (ls : list Boromir) (r : Boromir) (rs : list Boromir) (pfs : list Location)
  (fuel : nat) (h : Heap) :
  walkPreOrderWhileLoop (S fuel) (notTheMarker m)
    (recLoc done [] (fs ++ [recLoc ls (r :: rs) pfs])) h
  = walkPreOrderWhileLoop fuel (notTheMarker m)
      (recLoc (ls ++ [rebuild (nextId h) r done]) rs fs) (bump h).
Proof.
  cbn [walkPreOrderWhileLoop].
  change (notTheMarker m (recLoc done [] (fs ++ [recLoc ls (r :: rs) pfs])))
    with true.
  rewrite isAtEnd_recLoc. cbv iota.
  cbn [frames recLoc]. rewrite length_app. cbn [length]. rewrite Nat.add_1_r.
  cbn [ascend]. fold (recLoc done [] (fs ++ [recLoc ls (r :: rs) pfs])).
  rewrite isRoot_recLoc_snoc.
  unfold bind at 1. unfold bind at 1. rewrite up_recLoc, app_nil_r.
  rewrite isAtEnd_recLoc. unfold ret. rewrite next_recLoc. reflexivity.
Qed.

Lemma preOrder_root_end (m : Boromir) (ls : list Boromir) (fuel : nat)
  (h : Heap) :
  walkPreOrderWhileLoop (S fuel) (notTheMarker m) (recLoc ls [] []) h
  = Ok (recLoc ls [] [], h).
Proof. reflexivity. Qed.

(** Siblings that search are searched from left to right, up to the first
    one under which the marker is met. *)
Lemma preOrder_siblings (m : Boromir) (pending : list Boromir) :
  Forall (searchesPreOrder m) pending →
  ∀ (done : list Boromir) (fs : list Location) (h : Heap),
  ∃ k h',
    if existsb (seen m) pending then
      ∃ loc' x more,
        (∀ fuel,
           walkPreOrderWhileLoop (k + S fuel) (notTheMarker m)
             (recLoc done pending fs) h = Ok (loc', h'))
        ∧ after loc' = Some (IRec x) ∧ isHit m x = true
        ∧ frames loc' = fs ++ more
    else
      ∃ pending',
        ∀ fuel,
          walkPreOrderWhileLoop (k + fuel) (notTheMarker m)
            (recLoc done pending fs) h
          = walkPreOrderWhileLoop fuel (notTheMarker m)
              (recLoc (done ++ pending') [] fs) h'.
Proof.
  induction 1 as [|c pending Hc _ IH]; intros done fs h.
  - exists 0%nat, h. simpl. exists []. intros fuel. rewrite app_nil_r. reflexivity.
  - destruct (Hc done pending fs h) as (k1 & h1 & Hrun1).
    simpl. destruct (seen m c) eqn:Hseen; simpl.
    + exists k1, h1. destruct Hrun1 as (loc' & x & more & Hrun & Hafter & Hhit & Hfr & _).
      exists loc', x, more. auto.
    + destruct Hrun1 as (c' & Hrun1).
      destruct (IH (done ++ [c']) fs h1) as (k2 & h2 & Hrun2).
      exists (k1 + k2)%nat, h2.
      destruct (existsb (seen m) pending).
      * destruct Hrun2 as (loc' & x & more & Hrun2 & Hrest).
        exists loc', x, more. split; [| exact Hrest].
        intros fuel. rewrite <- Nat.add_assoc, Hrun1. apply Hrun2.
      * destruct Hrun2 as (pending' & Hrun2). exists (c' :: pending').
        intros fuel. rewrite <- Nat.add_assoc, Hrun1, Hrun2, <- app_assoc.
        reflexivity.
Qed.

Lemma preOrder_subtree (m r : Boromir) : searchesPreOrder m r.
Proof.
  induction r as [r IHkids] using Boromir_tree_ind.
  intros ls rs fs h. unfold seen.
  destruct (isHit m r) eqn:Hhit; simpl.
  - exists 0%nat, h, (recLoc ls (r :: rs) fs), r, [].
    repeat split; [| exact Hhit | by rewrite app_nil_r | discriminate].
    intros fuel. apply preOrder_hit, Hhit.
  - rewrite seenBelow_unfold. destruct (isLeaf r) eqn:Hleaf; simpl.
    + exists 1%nat, h, r. intros fuel. apply preOrder_leaf; assumption.
    + destruct (preOrder_siblings m (children r) IHkids []
                  (fs ++ [recLoc ls (r :: rs) fs]) h) as (k & h1 & Hrun).
      destruct (existsb (seen m) (children r)).
      * destruct Hrun as (loc' & x & more & Hrun & Hafter & Hx & Hfr).
        exists (S k), h1, loc', x, (recLoc ls (r :: rs) fs :: more).
        repeat split; [| exact Hafter | exact Hx | | discriminate].
        -- intros fuel. simpl (S k + S fuel)%nat.
           rewrite preOrder_down by assumption. apply Hrun.
        -- rewrite Hfr, <- app_assoc. reflexivity.
      * destruct Hrun as (kids' & Hrun).
        exists (S (k + 1)), (bump h1), (rebuild (nextId h1) r kids').
        intros fuel.
        replace (S (k + 1) + fuel)%nat with (S (k + S fuel)) by lia.
        rewrite preOrder_down by assumption.
        rewrite Hrun, app_nil_l. apply preOrder_up.
Qed.

Lemma occurs_none_unseen (m r : Boromir) :
  occurs m r = false → seen m r = false.
Proof.
  induction r as [r IHkids] using Boromir_tree_ind.
  rewrite occurs_unfold. unfold seen, isHit. rewrite seenBelow_unfold.
  intros [Hsame Hkids]%orb_false_elim.
  rewrite Hsame, andb_false_r. simpl.
  apply andb_false_intro2.
  induction IHkids as [|c kids Hc _ IH]; [reflexivity |].
  simpl in *. apply orb_false_elim in Hkids as [Hc' Hkids'].
  rewrite (Hc Hc'). apply IH, Hkids'.
Qed.

(** C6 (amended). If the walk meets the marker (a record flagged as marker
    and identical to it) below the root without entering a text node, a
    marker or a void element, [gotoMarker] returns a non-null Location
    whose cursor is that object; if no record of the tree is the marker,
    it returns null. Enough fuel always exists and nothing is thrown. *)
Theorem gotoMarker_finds_visible_marker (T m : Boromir) (h : Heap) :
  (isHit m T = false → seenBelow m T = true →
   ∃ n loc x h',
     (∀ fuel, (n ≤ fuel)%nat →
        gotoMarker fuel (create T) m h = Ok (Some loc, h'))
     ∧ after loc = Some (IRec x)
     ∧ isMarker x = true ∧ sameObject x m = true)
  ∧ (occurs m T = false →
     ∃ n h',
       ∀ fuel, (n ≤ fuel)%nat →
         gotoMarker fuel (create T) m h = Ok (None, h')).
Proof.
  assert (∀ fuel, gotoMarker fuel (create T) m h
                  = match walkPreOrderWhileLoop fuel (notTheMarker m)
                            (recLoc [] [T] []) h with
                    | Ok (loc, h') => Ok (if isRoot loc then None else Some loc, h')
                    | Throw e => Throw e
                    | OutOfFuel => OutOfFuel
                    end) as Hgoto by reflexivity.
  destruct (preOrder_subtree m T [] [] [] h) as (k & h' & Hrun).
  split.
  - intros Hhit Hbelow. unfold seen in Hrun. rewrite Hhit, Hbelow in Hrun.
    destruct Hrun as (loc & x & more & Hrun & Hafter & Hx & Hfr & Hmore).
    exists (k + 1)%nat, loc, x, h'.
    apply andb_prop in Hx as Hx'. destruct Hx' as [Hmk Hsame].
    repeat split; [| exact Hafter | exact Hmk | exact Hsame].
    intros fuel Hfuel. rewrite Hgoto.
    replace fuel with (k + S (fuel - (k + 1)))%nat by lia.
    rewrite Hrun. unfold isRoot. rewrite Hfr. simpl.
    destruct more; [exfalso; exact (Hmore eq_refl eq_refl) | reflexivity].
  - intros Hocc. rewrite (occurs_none_unseen _ _ Hocc) in Hrun.
    destruct Hrun as (T' & Hrun).
    exists (k + 1)%nat, h'. intros fuel Hfuel. rewrite Hgoto.
    replace fuel with (k + S (fuel - (k + 1)))%nat by lia.
    rewrite Hrun. simpl (_ ++ _). rewrite preOrder_root_end. reflexivity.
Qed.

(** ** Split *)

Local Arguments String.eqb : simpl never.

Lemma append_assoc (a b c : string) : (a +:+ b) +:+ c = a +:+ (b +:+ c).
Proof.
  induction a as [|x a IH]; [reflexivity |].
  change (String x ((a +:+ b) +:+ c) = String x (a +:+ (b +:+ c))).
  f_equal. exact IH.
Qed.

Lemma join_app (a b : list Item) : join (a ++ b) = join a +:+ join b.
Proof.
  induction a as [|x a IH]; [reflexivity |].
  simpl. rewrite IH. destruct x; rewrite append_assoc; reflexivity.
Qed.

Lemma wrappable_app (p : Boromir) (a b : list Item) :
  wrappable p (a ++ b) → wrappable p a ∧ wrappable p b.
Proof.
  intros Hw. split; intros Ht; destruct (Hw Ht) as [kids Hk];
    symmetry in Hk; apply map_eq_app in Hk as (ka & kb & _ & Ha & Hb); eauto.
Qed.

Lemma wrappable_same_kind (p x : Boromir) (items : list Item) :
  isTextRecord x = isTextRecord p → wrappable p items → wrappable x items.
Proof. intros Hk Hw Ht. apply Hw. congruence. Qed.

(** Setting fitting items as the content of a record allocates one record
    of the same kind, seeded with the items. *)
Lemma contentsWith_seeded (x : Boromir) (items : list Item) (h : Heap) :
  wrappable x items →
  ∃ y, contentsWith x (Arr items) h = Ok (y, bump h)
       ∧ isTextRecord y = isTextRecord x ∧ seeded y items.
Proof.
  intros Hw. unfold contentsWith, seeded, contents.
  destruct (isTextRecord x) eqn:Ht.
  - eexists. split; [reflexivity |].
    unfold isTextRecord in *. simpl. rewrite Ht. split; reflexivity.
  - destruct (Hw Ht) as [kids ->].
    unfold bind. rewrite wrapAll_records.
    eexists. split; [reflexivity |].
    unfold isTextRecord in *. simpl. rewrite Ht. split; reflexivity.
Qed.

Lemma up_framed (loc f : Location) (p : Boromir) (prest rs : list Item)
  (h : Heap) :
  last (frames loc) = Some f → rights f = Arr (IRec p :: prest) →
  rights loc = Arr rs → wrappable p (lefts loc ++ rs) →
  ∃ first,
    up loc h = Ok (mkLocation (lefts f) (Arr (IRec first :: prest))
                     (slice (frames loc) 0 (Some (-1))), bump h)
    ∧ isTextRecord first = isTextRecord p.
Proof.
  intros Hlast Hf Hrs Hw.
  destruct (contentsWith_seeded p (lefts loc ++ rs) h Hw) as (first & Hc & Hk & _).
  exists first. split; [| exact Hk].
  unfold up. rewrite Hlast, Hrs. unfold bind at 1. unfold lift at 1.
  cbn [defined concat]. unfold bind at 1. unfold lift at 1, after. rewrite Hf.
  cbn [seqFirst head asRecord]. unfold bind, ret. rewrite Hc.
  cbn [seqSlice concat]. rewrite slice_rest. reflexivity.
Qed.

Lemma chained_snoc_inv (F : list Location) (f : Location) :
  chained (F ++ [f]) →
  frames f = F
  ∧ (F = [] ∨
     ∃ fs g q p ls prest,
       F = fs ++ [g] ∧ chained F ∧ after g = Some (IRec q)
       ∧ isTextRecord q = false
       ∧ lefts f = map IRec ls ∧ rights f = Arr (IRec p :: map IRec prest)).
Proof.
  intros Hc. inversion Hc as [f0 Hroot Heq | fs g q f0 p ls prest Hprev Hg Hq Hfs Hl Hr Heq].
  - change [f0] with ([] ++ [f0]) in Heq.
    apply app_inj_tail in Heq as [<- <-]. auto.
  - apply app_inj_tail in Heq as [<- <-]. split; [exact Hfs |].
    right. exists fs, g, q, p, ls, prest. repeat split; assumption.
Qed.

Lemma wellFramed_frames (loc : Location) :
  wellFramed loc → ∃ F f, frames loc = F ++ [f] ∧ frames f = F.
Proof.
  intros (rs & f & p & prest & _ & Hc & Hlast & _).
  destruct (frames loc) as [|x l] eqn:E using rev_ind; [discriminate |].
  rewrite last_snoc in Hlast. inversion Hlast; subst.
  exists l, f. split; [reflexivity |]. apply chained_snoc_inv in Hc. tauto.
Qed.

(** One level of [split] keeps the Location well framed. *)
Lemma splitsOnce_wellFramed (loc mid : Location) :
  wellFramed loc → splitsOnce loc mid → wellFramed mid.
Proof.
  intros (rs & f & p & prest & Hrs & Hc & Hlast & Hf & Hw)
         (f' & p' & prest' & rs' & l & r & Hlast' & Hne & Hf' & Hrs' & _ & _ & _ & _ & ->).
  rewrite Hlast in Hlast'. inversion Hlast'; subst f'. clear Hlast'.
  destruct (frames loc) as [|x F _] eqn:E using rev_ind; [discriminate |].
  rewrite last_snoc in Hlast. inversion Hlast; subst x. clear Hlast.
  apply chained_snoc_inv in Hc as [HF [-> | Hpush]]; [contradiction |].
  destruct Hpush as (fs & g & q & p0 & ls & prest0 & -> & HcF & Hg & Hq & Hl & Hr).
  rewrite Hr in Hf'. inversion Hf'; subst p' prest'. clear Hf'.
  assert (∃ grest, rights g = Arr (IRec q :: grest)) as [grest Hgr].
  { unfold after in Hg. destruct (rights g) as [[|x items]|[|c s]]; try discriminate.
    simpl in Hg. inversion Hg; subst. eauto. }
  exists (IRec r :: map IRec prest0), g, q, grest.
  simpl. rewrite HF, last_snoc.
  repeat split; [exact HcF | exact Hgr |].
  intros _. exists (ls ++ [l] ++ r :: prest0).
  rewrite Hl, !map_app. simpl. rewrite <- app_assoc. reflexivity.
Qed.

Lemma bind_ok {A B : Type} (m : M A) (k : A → M B) (h h' : Heap) (a : A) :
  m h = Ok (a, h') → (let* x := m in k x) h = k a h'.
Proof. intros Hm. unfold bind. rewrite Hm. reflexivity. Qed.

Lemma splitFrom_stop (n : nat) (loc f : Location)
  (until : option (Location → bool)) (h : Heap) :
  last (frames loc) = Some f →
  isRoot f || default (fun _ => false) until loc = true →
  splitFrom n loc until h = Ok (loc, h).
Proof.
  intros Hlast Hstop.
  destruct n; cbn [splitFrom]; unfold bind, lift, peek;
    rewrite Hlast; cbn [defined]; rewrite Hstop; reflexivity.
Qed.

(** The two empty halves of one level are of the kind of the record that
    is split. *)
Lemma split_halves (loc : Location) (first p : Boromir) (rs : list Item)
  (h : Heap) :
  rights loc = Arr rs → wrappable p (lefts loc ++ rs) →
  isTextRecord first = isTextRecord p →
  ∃ l0 r0 h',
    (if isTextLocation loc then
       let* l := createRecord "#text" None in
       let* r := createRecord "#text" None in
       ret (l, r)
     else
       let* record := lift (asRecord (Some (IRec first))) in
       let* l := clone record in
       let* r := clone record in
       ret (l, r)) h = Ok ((l0, r0), h')
    ∧ isTextRecord l0 = isTextRecord p ∧ isTextRecord r0 = isTextRecord p.
Proof.
  intros Hrs Hw Hk.
  destruct (isTextLocation loc) eqn:Htl.
  - assert (isTextRecord p = true) as Hp.
    { destruct (isTextRecord p) eqn:E; [reflexivity |].
      apply wrappable_app in Hw as [_ Hwr]. destruct (Hwr E) as [kids ->].
      unfold isTextLocation, after in Htl. rewrite Hrs in Htl.
      destruct kids; discriminate. }
    eexists _, _, _. split; [reflexivity |]. rewrite Hp. split; reflexivity.
  - eexists _, _, _. split; [reflexivity |].
    unfold isTextRecord in *. simpl. split; exact Hk.
Qed.

(** One turn of [split] below the level under the root. *)
Lemma splitFrom_step (loc f : Location) (until : option (Location → bool))
  (h : Heap) :
  wellFramed loc → last (frames loc) = Some f →
  isRoot f || default (fun _ => false) until loc = false →
  ∃ mid h',
    (∀ n, splitFrom (S n) loc until h = splitFrom n mid until h')
    ∧ splitsOnce loc mid
    ∧ S (length (frames mid)) = length (frames loc).
Proof.
  intros Hwf Hlast Hgo.
  destruct (wellFramed_frames loc Hwf) as (F & f0 & HF & Hf0).
  rewrite HF, last_snoc in Hlast. inversion Hlast; subst f0. clear Hlast.
  destruct Hwf as (rs & f0 & p & prest & Hrs & _ & Hlast & Hf & Hw).
  rewrite HF, last_snoc in Hlast. inversion Hlast; subst f0.
  assert (last (frames loc) = Some f) as Hlast' by (rewrite HF; apply last_snoc).
  destruct (up_framed loc f p prest rs h Hlast' Hf Hrs Hw) as (first & Hup & Hk).
  rewrite HF, slice_drop_last in Hup.
  destruct (split_halves loc first p rs (bump h) Hrs Hw Hk)
    as (l0 & r0 & h2 & Hhalves & Hl0 & Hr0).
  apply wrappable_app in Hw as Hw2. destruct Hw2 as [Hwl Hwr].
  destruct (contentsWith_seeded l0 (lefts loc) h2
              (wrappable_same_kind p l0 _ Hl0 Hwl)) as (l & Hcl & Hkl & Hsl).
  destruct (contentsWith_seeded r0 rs (bump h2)
              (wrappable_same_kind p r0 _ Hr0 Hwr)) as (r & Hcr & Hkr & Hsr).
  exists (mkLocation (lefts f ++ [IRec l]) (Arr (IRec r :: prest)) F),
    (bump (bump h2)).
  split; [| split].
  - intros n. cbn [splitFrom]. unfold bind at 1. unfold lift at 1, peek.
    rewrite Hlast'. cbn [defined]. rewrite Hgo.
    rewrite (bind_ok _ _ _ _ _ Hup). cbn [after rights seqFirst head].
    rewrite (bind_ok _ _ _ _ _ Hhalves). cbn [fst snd].
    rewrite (bind_ok _ _ _ _ _ Hcl). rewrite Hrs.
    rewrite (bind_ok _ _ _ _ _ Hcr).
    cbn [lefts rights frames seqSlice concat]. rewrite slice_rest.
    reflexivity.
  - exists f, p, prest, rs, l, r.
    assert (frames f ≠ []) as Hne.
    { apply orb_false_elim in Hgo as [Hroot _]. unfold isRoot in Hroot.
      intros E. rewrite E in Hroot. discriminate. }
    rewrite Hf0.
    repeat split; try assumption; congruence.
  - simpl. rewrite HF, length_app. simpl. lia.
Qed.

Lemma splitRun_levels (until : option (Location → bool)) (d : nat) :
  ∀ loc loc', splitRun until d loc loc' → splitLevels d loc loc'.
Proof.
  induction d as [|d IH]; intros loc loc'.
  - intros [-> _]. reflexivity.
  - intros (_ & mid & Honce & Hrest). exists mid.
    split; [exact Honce | apply IH, Hrest].
Qed.

(** [split] returns after going up as many levels as there are Locations
    on the way at which it is not to stop. *)
Lemma splitFrom_run (until : option (Location → bool)) (n : nat) :
  ∀ (loc : Location) (h : Heap),
    wellFramed loc → (length (frames loc) ≤ n)%nat →
    ∃ d loc' h',
      splitFrom n loc until h = Ok (loc', h')
      ∧ splitRun until d loc loc'
      ∧ (length (frames loc') + d)%nat = length (frames loc)
      ∧ wellFramed loc'.
Proof.
  induction n as [|n IH]; intros loc h Hwf Hlen.
  - destruct (wellFramed_frames loc Hwf) as (F & f & HF & _).
    rewrite HF, length_app in Hlen. simpl in Hlen. lia.
  - destruct (wellFramed_frames loc Hwf) as (F & f & HF & _).
    assert (last (frames loc) = Some f) as Hlast by (rewrite HF; apply last_snoc).
    destruct (isRoot f || default (fun _ => false) until loc) eqn:Hstop.
    + exists 0%nat, loc, h. split; [apply (splitFrom_stop _ _ f); assumption |].
      split; [| split; [lia | exact Hwf]].
      split; [reflexivity |]. unfold splitStops. rewrite Hlast. exact Hstop.
    + destruct (splitFrom_step loc f until h Hwf Hlast Hstop)
        as (mid & h1 & Hrun & Honce & Hshorter).
      destruct (IH mid h1 (splitsOnce_wellFramed _ _ Hwf Honce) ltac:(lia))
        as (d & loc' & h' & Hsplit & Hlevels & Hdepth & Hwf').
      exists (S d), loc', h'. split; [rewrite Hrun; exact Hsplit |].
      split; [| split; [lia | exact Hwf']].
      split; [unfold splitStops; rewrite Hlast; exact Hstop |].
      exists mid. split; assumption.
Qed.

(** Without [until], [split] stops only under the root frame. *)
Lemma splitStops_under_root (loc : Location) :
  wellFramed loc → splitStops None loc = true → length (frames loc) = 1%nat.
Proof.
  intros Hwf Hstop.
  destruct (wellFramed_frames loc Hwf) as (F & f & HF & Hf).
  unfold splitStops in Hstop. rewrite HF, last_snoc in Hstop.
  simpl (default _ _) in Hstop. rewrite orb_false_r in Hstop.
  unfold isRoot in Hstop. rewrite Hf in Hstop.
  rewrite HF, length_app. destruct F; [reflexivity | discriminate].
Qed.

Lemma rightmost_step (d : nat) :
  ∀ (top a l : Boromir),
    rightmost d top = Some a → last (children a) = Some l →
    rightmost (S d) top = Some l.
Proof.
  induction d as [|d IH]; intros top a l Ha Hl.
  - inversion Ha; subst. simpl. rewrite Hl. reflexivity.
  - simpl in Ha. destruct (last (children top)) as [c|] eqn:E; [| discriminate].
    change (rightmost (S (S d)) top)
      with (match last (children top) with
            | Some c => rightmost (S d) c
            | None => None
            end).
    rewrite E. apply (IH c a l); assumption.
Qed.

Lemma leftmost_step (d : nat) :
  ∀ (top a l : Boromir),
    leftmost d top = Some a → head (children a) = Some l →
    leftmost (S d) top = Some l.
Proof.
  induction d as [|d IH]; intros top a l Ha Hl.
  - inversion Ha; subst. simpl. rewrite Hl. reflexivity.
  - simpl in Ha. destruct (head (children top)) as [c|] eqn:E; [| discriminate].
    change (leftmost (S (S d)) top)
      with (match head (children top) with
            | Some c => leftmost (S d) c
            | None => None
            end).
    rewrite E. apply (IH c a l); assumption.
Qed.

Lemma map_IRec_last (kids : list Boromir) (items : list Item) (l : Boromir) :
  map IRec kids = items ++ [IRec l] → last kids = Some l.
Proof.
  intros Heq. apply map_eq_app in Heq as (k1 & k2 & -> & _ & Hk2).
  destruct k2 as [|x [|y k2]]; try discriminate.
  inversion Hk2; subst. apply last_snoc.
Qed.

Lemma map_IRec_head (kids : list Boromir) (items : list Item) (r : Boromir) :
  map IRec kids = IRec r :: items → head kids = Some r.
Proof.
  destruct kids as [|x kids]; [discriminate |].
  intros Heq. inversion Heq; subst. reflexivity.
Qed.

(** After [S d] levels the halves made at the first level are found [d]
    levels down the facing edges of the records around the cursor; they
    still hold the original [lefts] and [rights] and are of the kind of
    the record that was split first. *)
Lemma splitLevels_halves (d : nat) :
  ∀ (loc loc' : Location) (rs : list Item),
    wellFramed loc → rights loc = Arr rs → splitLevels (S d) loc loc' →
    ∃ L R a b f p prest,
      before loc' = Some (IRec L) ∧ after loc' = Some (IRec R)
      ∧ rightmost d L = Some a ∧ leftmost d R = Some b
      ∧ seeded a (lefts loc) ∧ seeded b rs
      ∧ last (frames loc) = Some f ∧ rights f = Arr (IRec p :: prest)
      ∧ isTextRecord a = isTextRecord p ∧ isTextRecord b = isTextRecord p.
Proof.
  induction d as [|d IH]; intros loc loc' rs Hwf Hrs (mid & Honce & Hrest).
  - simpl in Hrest. subst loc'.
    destruct Honce as (f & p & prest & rs' & l & r & Hlast & _ & Hf & Hrs' & Hkl & Hkr
                       & Hsl & Hsr & ->).
    rewrite Hrs in Hrs'. inversion Hrs'; subst rs'.
    exists l, r, l, r, f, p, prest. unfold before, after. simpl. rewrite last_snoc.
    repeat split; assumption.
  - pose proof (splitsOnce_wellFramed _ _ Hwf Honce) as Hwfmid.
    destruct Honce as (f & p & prest & rs' & l & r & Hlast & Hne & Hf & Hrs' & Hkl & Hkr
                       & Hsl & Hsr & Hmid).
    rewrite Hrs in Hrs'. inversion Hrs'; subst rs'. clear Hrs'.
    destruct (IH mid loc' (IRec r :: prest) Hwfmid ltac:(subst mid; reflexivity) Hrest)
      as (L & R & a & b & g & q & grest & Hbefore & Hafter & Ha & Hb & Hsa & Hsb
          & Hlastg & Hg & Hka & Hkb).
    (* the records split above the first level are elements *)
    assert (isTextRecord q = false) as Hq.
    { destruct Hwf as (_ & f0 & _ & _ & _ & Hc & Hlast0 & _ & _).
      rewrite Hlast in Hlast0. inversion Hlast0; subst f0. clear Hlast0.
      destruct (frames loc) as [|x F _] eqn:E using rev_ind; [discriminate |].
      rewrite last_snoc in Hlast. inversion Hlast; subst x.
      apply chained_snoc_inv in Hc as [HF [-> | Hpush]]; [contradiction |].
      destruct Hpush as (fs & g0 & q0 & p0 & ls & prest0 & -> & _ & Hg0 & Hq0 & _).
      subst mid. simpl in Hlastg. rewrite HF, last_snoc in Hlastg.
      inversion Hlastg; subst g0.
      unfold after in Hg0. rewrite Hg in Hg0. simpl in Hg0. congruence. }
    rewrite Hq in Hka, Hkb.
    unfold seeded, contents in Hsa, Hsb. rewrite Hka in Hsa. rewrite Hkb in Hsb.
    subst mid. simpl in Hsa, Hsb.
    inversion Hsa as [Hkids_a]. inversion Hsb as [Hkids_b].
    exists L, R, l, r, f, p, prest.
    repeat split; try assumption.
    + apply (rightmost_step d L a l Ha). eapply map_IRec_last, Hkids_a.
    + apply (leftmost_step d R b r Hb). eapply map_IRec_head, Hkids_b.
Qed.

(** C1 (amended). For every Location below the root whose [lefts] and
    [rights] are arrays that fit the enclosing record, as the zipper builds
    them, and every [until] predicate, [split] returns. It goes up exactly
    as far as the code says: [d] levels, at none of which the innermost
    frame was the root frame or [until] held, to a Location where one of
    the two is the case, [d] frames shorter; without [until] that is the
    Location under the root frame. Every level it went up replaced the
    enclosing record by a left half seeded with that level's [lefts] and a
    right half seeded with its [rights]; and the contents on the two sides
    of the split point, concatenated, are the original [lefts ++ rights]
    (as children, or as text inside a text node): nothing is lost or
    duplicated. *)
Theorem split_preserves_content (loc : Location)
  (until : option (Location → bool)) (h : Heap) :
  wellFramed loc →
  ∃ d loc' h' sides,
    split loc until h = Ok (loc', h')
    ∧ splitRun until d loc loc'
    ∧ (length (frames loc') + d)%nat = length (frames loc)
    ∧ (until = None → length (frames loc') = 1%nat)
    ∧ splitPoint d loc' = Some sides
    ∧ joined sides (concat (lefts loc) (rights loc)).
Proof.
  intros Hwf.
  destruct (splitFrom_run until (length (frames loc)) loc h Hwf (le_n _))
    as (d & loc' & h' & Hsplit & Hrun & Hdepth & Hwf').
  pose proof (splitRun_levels until d loc loc' Hrun) as Hlevels.
  assert (splitStops until loc' = true) as Hstop.
  { clear - Hrun. revert loc Hrun. induction d as [|d IH]; intros loc Hrun.
    - destruct Hrun as [-> Hstop]. exact Hstop.
    - destruct Hrun as (_ & mid & _ & Hrest). exact (IH mid Hrest). }
  assert (until = None → length (frames loc') = 1%nat) as Hroot.
  { intros ->. apply splitStops_under_root; assumption. }
  pose proof Hwf as (rs & _ & _ & _ & Hrs & _).
  destruct d as [|d].
  - simpl in Hlevels. subst loc'.
    exists 0%nat, loc, h', (Arr (lefts loc), rights loc).
    split; [exact Hsplit |]. split; [exact Hrun |].
    split; [exact Hdepth |]. split; [exact Hroot |].
    split; [reflexivity |]. rewrite Hrs. reflexivity.
  - destruct (splitLevels_halves d loc loc' rs Hwf Hrs Hlevels)
      as (L & R & a & b & f & p & prest & Hbefore & Hafter & Ha & Hb & Hsa & Hsb
          & _ & _ & Hka & Hkb).
    exists (S d), loc', h', (contents a, contents b).
    split; [exact Hsplit |]. split; [exact Hrun |].
    split; [exact Hdepth |]. split; [exact Hroot |]. split.
    + unfold splitPoint. rewrite Hbefore, Hafter, Ha, Hb. reflexivity.
    + unfold seeded in Hsa, Hsb. rewrite Hsa, Hsb, Hka, Hkb, Hrs.
      destruct (isTextRecord p); simpl; [symmetry; apply join_app | reflexivity].
Qed.

(** ** Detection of fragmented text *)

Lemma bind_inv {A B : Type} (m : M A) (k : A → M B) (h h' : Heap) (b : B) :
  (let* x := m in k x) h = Ok (b, h') →
  ∃ a h1, m h = Ok (a, h1) ∧ k a h1 = Ok (b, h').
Proof.
  unfold bind. destruct (m h) as [[a h1]| |]; try discriminate. eauto.
Qed.

Lemma skipMarkers_stays (n : nat) (loc : Location) (r : Boromir) :
  after loc = Some (IRec r) → isMarker r = false →
  skipMarkers n loc = Ok loc.
Proof.
  intros Hafter Hm. destruct n; cbn [skipMarkers]; rewrite Hafter;
    cbn [isMarkerValue obind]; rewrite Hm; reflexivity.
Qed.

Lemma isFragmentedText_name (r : Boromir) :
  isFragmentedText r = true ↔ name r = "Q"%string.
Proof.
  unfold isFragmentedText. rewrite String.eqb_eq. split; congruence.
Qed.

(** The wrapper [FragmentedText] puts under the new innermost frame. *)
Lemma FragmentedText_wrapper (loc loc' : Location) (h h' : Heap) :
  FragmentedText loc h = Ok (loc', h') →
  ∃ f w, last (frames loc') = Some f ∧ after f = Some (IRec w)
         ∧ name w = "Q"%string ∧ isFragmentedTextFlag w = true.
Proof.
  unfold FragmentedText. intros Hrun.
  apply bind_inv in Hrun as (atText & h1 & _ & Hrun).
  apply bind_inv in Hrun as (q & h2 & Hq & Hrun).
  apply bind_inv in Hrun as (l0 & h3 & _ & Hrun).
  apply bind_inv in Hrun as (l & h4 & _ & Hrun).
  apply bind_inv in Hrun as (r0 & h5 & _ & Hrun).
  apply bind_inv in Hrun as (r & h6 & _ & Hrun).
  apply bind_inv in Hrun as (inner & h7 & Hdown & Hrun).
  inversion Hrun; subst loc' h'. clear Hrun.
  inversion Hq; subst q h2. clear Hq.
  unfold lift, down, replace, splice in Hdown.
  cbn [after rights seqFirst frames lefts] in Hdown.
  destruct (seqSlice (rights atText) 1 None) as [tail | tail];
    cbn [concat app head asRecord obind] in Hdown;
    inversion Hdown; subst inner h7; clear Hdown;
    cbn [frames]; rewrite last_snoc;
    (eexists _, _; split; [reflexivity |]; split; [reflexivity |];
     split; reflexivity).
Qed.

(** C10. [isFragmentedText] looks at the name only: it holds exactly for
    records named [Q]. The wrapper built by [FragmentedText] is such a
    record, and so is any element named [Q], whatever its
    [isFragmentedText] flag and [original]: [update] replaces it by its
    defragmented text, path resolution enters it through
    [locationInFragment], and the post-order walk counts offsets under it
    in characters of text fragments. *)
Theorem fragmentedText_detected_by_name :
  (∀ r : Boromir, isFragmentedText r = true ↔ name r = "Q"%string)
  ∧ (∀ (loc loc' : Location) (h h' : Heap),
       FragmentedText loc h = Ok (loc', h') →
       ∃ f w, last (frames loc') = Some f ∧ after f = Some (IRec w)
              ∧ isFragmentedText w = true)
  ∧ (∀ r : Boromir, name r = "Q"%string → isMarker r = false →
       (∀ trail paths h,
          updateMutate r trail paths h
          = (let* t := defragmentText r in ret ([IRec t], paths)) h)
       ∧ (∀ loc offset rest h,
            after loc = Some (IRec r) →
            traverse loc (offset :: rest) h
            = (let* inner := locationInFragment loc offset in
               traverse inner rest) h)
       ∧ (∀ (Acc : Type) (mutate : Boromir → list Z → Acc → M (list Item * Acc))
            ls c rs fs pls prs pfs trail acc h,
            isLeaf c = true →
            walkPostOrderTurn mutate
              (recLoc ls (c :: rs) (fs ++ [recLoc pls (r :: prs) pfs])) trail acc h
            = (let* res :=
                 mutate c
                   (trail ++ [fragmentsLength
                                (filter (fun x => isTextRecord x = true) ls)]) acc in
               ret (inr (jump (replace (recLoc ls (c :: rs)
                                          (fs ++ [recLoc pls (r :: prs) pfs]))
                                 (RMany (fst res)))
                           (Z.of_nat (length (fst res))), trail, snd res)))
                (bump h))).
Proof.
  split; [exact isFragmentedText_name |]. split.
  - intros loc loc' h h' Hrun.
    destruct (FragmentedText_wrapper loc loc' h h' Hrun) as (f & w & Hlast & Hafter & Hn & _).
    exists f, w. repeat split; try assumption. apply isFragmentedText_name, Hn.
  - intros r Hname Hmarker.
    assert (isFragmentedText r = true) as Hq by (apply isFragmentedText_name, Hname).
    assert (isTextRecord r = false) as Ht
        by (unfold isTextRecord; rewrite Hname; reflexivity).
    split; [| split].
    + intros trail paths h. unfold updateMutate. rewrite Hmarker, Hq. reflexivity.
    + intros loc offset rest h Hafter. cbn [traverse].
      unfold bind at 1. unfold lift at 1.
      rewrite (skipMarkers_stays _ loc r Hafter Hmarker).
      unfold bind at 1. unfold lift at 1. rewrite Hafter. cbn [asRecord].
      rewrite Ht, Hq. reflexivity.
    + intros Acc mutate ls c rs fs pls prs pfs trail acc h Hleaf.
      rewrite postOrder_turn_leaf_offset by exact Hleaf. rewrite Hq. reflexivity.
Qed.

(** * Further properties of zippers.js *)

(** ** Navigation and the splice family *)

Lemma clampIndex_from_end (len : nat) (k : Z) :
  0 < k ≤ Z.of_nat len → clampIndex len (- k) = (len - Z.to_nat k)%nat.
Proof.
  intros Hk. unfold clampIndex. destruct (- k <? 0) eqn:E; lia.
Qed.

Lemma slice_take {A} (l : list A) (k : Z) :
  0 ≤ k → slice l 0 (Some k) = take (Z.to_nat k) l.
Proof.
  intros Hk. rewrite slice_head, clampIndex_nonneg by lia.
  destruct (Nat.le_gt_cases (Z.to_nat k) (length l)) as [Hle | Hgt].
  - rewrite Nat.min_l by lia. reflexivity.
  - rewrite Nat.min_r by lia. rewrite !take_ge by lia. reflexivity.
Qed.

Lemma slice_drop {A} (l : list A) (k : Z) :
  0 ≤ k → slice l k None = drop (Z.to_nat k) l.
Proof.
  intros Hk. rewrite slice_tail, clampIndex_nonneg by lia.
  destruct (Nat.le_gt_cases (Z.to_nat k) (length l)) as [Hle | Hgt].
  - rewrite Nat.min_l by lia. reflexivity.
  - rewrite Nat.min_r by lia. rewrite !drop_ge by lia. reflexivity.
Qed.

(** X1. Moving right by [k] siblings and back left by [k] returns to the
    same Location, and so does left then right, provided the stride is
    positive and that many siblings exist on the side moved to first. *)
Theorem prev_next_inverse (loc : Location) (rs : list Item) (k : Z) :
  rights loc = Arr rs → 0 < k →
  (k ≤ Z.of_nat (length rs) → prev (next loc (Some k)) (Some k) = loc)
  ∧ (k ≤ Z.of_nat (length (lefts loc)) →
     next (prev loc (Some k)) (Some k) = loc).
Proof.
  intros Hrs Hk. destruct loc as [ls r fs]. simpl in Hrs. subst r.
  unfold prev, next, strideOr1. simpl (default _ _).
  cbn [lefts rights frames seqSlice concat].
  split; intros Hlen.
  - rewrite (slice_take rs k), (slice_drop rs k) by lia.
    rewrite slice_head, slice_tail.
    rewrite clampIndex_from_end
      by (rewrite length_app, length_take; lia).
    rewrite length_app, length_take.
    replace (length ls + Z.to_nat k `min` length rs - Z.to_nat k)%nat
      with (length ls) by lia.
    rewrite take_app_length, drop_app_length, take_drop. reflexivity.
  - rewrite (slice_head ls), (slice_tail ls).
    rewrite clampIndex_from_end by lia.
    set (n := (length ls - Z.to_nat k)%nat).
    rewrite (slice_take _ k), (slice_drop _ k) by lia.
    assert (length (drop n ls) = Z.to_nat k) as Hd
        by (rewrite length_drop; unfold n; lia).
    rewrite <- Hd at 1. rewrite take_app_length.
    rewrite <- Hd. rewrite drop_app_length, take_drop. reflexivity.
Qed.

(** X2. On every Location [insert] puts the record at the cursor without
    touching what is on the left, and [replace] is [remove] followed by
    [insert]. Removing right after inserting gives the Location back when
    its [rights] is an array; on a Location whose [rights] is a string (the
    one [down] returns on a text node) it gives the string back as the one
    item of an array. *)
Theorem insert_remove_compose (loc : Location) (x : Boromir) :
  after (insert loc (ROne x)) = Some (IRec x)
  ∧ lefts (insert loc (ROne x)) = lefts loc
  ∧ replace loc (ROne x) = insert (remove loc) (ROne x)
  ∧ (∀ rs, rights loc = Arr rs → remove (insert loc (ROne x)) = loc)
  ∧ (∀ s, rights loc = Str s →
       remove (insert loc (ROne x))
       = mkLocation (lefts loc) (Arr [IStr s]) (frames loc)).
Proof.
  assert (∀ t, String.substring 0 (String.length t) t = t) as Hwhole.
  { induction t as [|c t IH]; [reflexivity |]. simpl. rewrite IH.
    reflexivity. }
  destruct loc as [ls [items | s] fs];
    unfold insert, remove, replace, splice, after;
    cbn [lefts rights frames seqSlice concat seqFirst app head];
    rewrite ?slice_whole, ?slice_rest.
  - split; [reflexivity |]. split; [reflexivity |]. split; [reflexivity |].
    split; [| intros s Habs; discriminate Habs].
    intros rs Hrs. inversion Hrs. reflexivity.
  - split; [reflexivity |]. split; [reflexivity |]. split; [reflexivity |].
    split; [intros rs Habs; discriminate Habs |].
    intros t Ht. inversion Ht; subst t.
    unfold sliceString, clampIndex. simpl. rewrite Nat.sub_0_r, Hwhole.
    reflexivity.
Qed.

(** ** Up, down and the root *)

Lemma shape_setText_same (i : nat) (r : Boromir) :
  shape (mkBoromir i (name r) (text r) (children r) (styles r)
           (isMarkerFlag r) (marker r) (boundary r) (isFragmentedTextFlag r)
           (original r)) = shape r.
Proof. destruct r. reflexivity. Qed.

(** X3. Entering the record at the cursor and leaving it at once gives the
    Location back, with the record rebuilt: a new object of the same
    structure, for elements as well as for text nodes. *)
Theorem up_down_roundtrip (loc : Location) (r : Boromir) (rest : list Item)
  (h : Heap) :
  rights loc = Arr (IRec r :: rest) →
  ∃ r',
    (let* inner := lift (down loc) in up inner) h
    = Ok (mkLocation (lefts loc) (Arr (IRec r' :: rest)) (frames loc), bump h)
    ∧ shape r' = shape r ∧ rid r' = nextId h.
Proof.
  intros Hrs. unfold bind at 1. unfold lift, down, after. rewrite Hrs.
  cbn [seqFirst head asRecord obind]. unfold up.
  cbn [lefts rights frames]. rewrite last_snoc.
  unfold bind at 1. unfold lift at 1. cbn [defined].
  unfold bind at 1. unfold lift at 1, after. rewrite Hrs.
  cbn [seqFirst head asRecord].
  rewrite slice_drop_last. cbn [seqSlice]. rewrite slice_rest.
  unfold contents. destruct (isTextRecord r) eqn:Ht.
  - cbn [concat app]. unfold contentsWith. rewrite Ht.
    unfold bind, setText, fresh, ret. cbn [join foldr].
    rewrite append_empty. eexists. split; [reflexivity |].
    split; [apply shape_setText_same | reflexivity].
  - cbn [concat app]. unfold bind at 1. rewrite contentsWith_records.
    unfold ret. eexists. split; [reflexivity |].
    unfold rebuild. rewrite Ht. split; [apply shape_setText_same | reflexivity].
Qed.

(** X4. On a Location without frames there is nothing above: [up] and
    [split] throw a TypeError, [split] even when [until] holds, since the
    innermost frame is inspected first; [root] is the identity there.
    [down] throws when there is no record at the cursor. *)
Theorem root_location_edges (loc : Location)
  (until : option (Location → bool)) (h : Heap) :
  frames loc = [] →
  up loc h = Throw TypeError
  ∧ split loc until h = Throw TypeError
  ∧ root loc h = Ok (loc, h)
  ∧ ((∀ r, after loc ≠ Some (IRec r)) → down loc = Throw TypeError).
Proof.
  intros Hfs. unfold up, split, root, down. rewrite Hfs.
  split; [reflexivity |]. split.
  { cbn [length splitFrom]. unfold bind, lift, peek. rewrite Hfs. reflexivity. }
  split; [reflexivity |].
  intros Hnone. destruct (after loc) as [[s | r] |]; try reflexivity.
  exfalso. exact (Hnone r eq_refl).
Qed.

(** ** Clipping a boundary path *)

Lemma clipCommonRootFrom_prefix (rest : list Z) :
  ∀ (common done : list Z),
    clipCommonRootFrom (done ++ common) (done ++ common ++ rest)
      (length done) (length common)
    = rest.
Proof.
  induction common as [|x common IH]; intros done.
  - cbn [clipCommonRootFrom length app]. rewrite slice_drop by lia.
    rewrite Nat2Z.id, drop_app_length. reflexivity.
  - cbn [clipCommonRootFrom length].
    rewrite !(lookup_app_r done) by lia.
    rewrite Nat.sub_diag. cbn [app lookup list_lookup].
    destruct (decide (Some x = Some x)) as [_ | Hne]; [| contradiction].
    specialize (IH (done ++ [x])).
    rewrite <- !app_assoc in IH. cbn [app] in IH.
    rewrite length_app in IH. cbn [length] in IH.
    rewrite Nat.add_1_r in IH. exact IH.
Qed.

Lemma clipCommonRootFrom_not_prefix (root path : list Z) :
  ∀ n start,
    (start + n = length root)%nat →
    take start path = take start root → (start ≤ length path)%nat →
    ¬ root `prefix_of` path →
    clipCommonRootFrom root path start n = [].
Proof.
  induction n as [|n IH]; intros start Hlen Hsame Hstart Hnot.
  - exfalso. apply Hnot. exists (drop start path).
    rewrite <- (take_drop start path) at 1. rewrite Hsame.
    rewrite take_ge by lia. reflexivity.
  - cbn [clipCommonRootFrom].
    destruct (decide (path !! start = root !! start)) as [Heq |]; [| reflexivity].
    destruct (root !! start) as [x |] eqn:Hx;
      [| apply lookup_ge_None in Hx; lia].
    apply IH; [lia | | | exact Hnot].
    + rewrite (take_S_r path start x Heq), (take_S_r root start x Hx).
      rewrite Hsame. reflexivity.
    + apply lookup_lt_Some in Heq. lia.
Qed.

(** X5. [clipCommonRoot] returns what follows the root path when the root
    path is a prefix of the boundary path, and the empty path in every
    other case. A boundary at the root path itself is clipped to the empty
    path too, so it is told apart from no boundary by nothing. *)
Theorem clipCommonRoot_prefix (root path : list Z) :
  (∀ rest, path = root ++ rest → clipCommonRoot root path = rest)
  ∧ (¬ root `prefix_of` path → clipCommonRoot root path = [])
  ∧ clipCommonRoot root root = [].
Proof.
  unfold clipCommonRoot. split; [| split].
  - intros rest ->. apply (clipCommonRootFrom_prefix rest root []).
  - intros Hnot.
    apply clipCommonRootFrom_not_prefix; [reflexivity | | simpl; lia | exact Hnot].
    rewrite !take_0. reflexivity.
  - pose proof (clipCommonRootFrom_prefix [] root []) as H.
    cbn [app length] in H. rewrite app_nil_r in H. exact H.
Qed.

(** ** Offsets in fragmented text *)

Lemma textBefore_S_marker (n : nat) (fragments : list Boromir) (f : Boromir) :
  isMarker f = true →
  textBefore (S n) (f :: fragments) = textBefore n fragments.
Proof.
  intros Hm. unfold textBefore. cbn [take].
  rewrite filter_cons_False by (rewrite Hm; discriminate). reflexivity.
Qed.

Lemma textBefore_S_text (n : nat) (fragments : list Boromir) (f : Boromir) :
  isMarker f = false →
  textBefore (S n) (f :: fragments)
  = Z.of_nat (String.length (text f)) + textBefore n fragments.
Proof.
  intros Hm. unfold textBefore. cbn [take].
  rewrite filter_cons_True by exact Hm. apply fragmentsLength_cons.
Qed.

(** Where the loop of [fragmentedOffset] stops, the text before that place
    is the text asked for. *)
Lemma fragmentedOffsetFrom_position (fragments : list Boromir) :
  ∀ index remainder path,
    0 < remainder →
    fragmentedOffsetFrom fragments index remainder = Ok path →
    (∃ n : nat,
       path = [index + Z.of_nat n] ∧ (n ≤ length fragments)%nat
       ∧ textBefore n fragments = remainder)
    ∨ (∃ (n : nat) f o,
         path = [index + Z.of_nat n; o] ∧ fragments !! n = Some f
         ∧ isMarker f = false ∧ 0 < o < Z.of_nat (String.length (text f))
         ∧ textBefore n fragments + o = remainder).
Proof.
  induction fragments as [|f rest IH]; intros index remainder path Hpos Hrun;
    [discriminate |].
  cbn [fragmentedOffsetFrom] in Hrun.
  assert (∀ p, (∃ n : nat,
                  p = [index + 1 + Z.of_nat n] ∧ (n ≤ length rest)%nat
                  ∧ textBefore (S n) (f :: rest) = remainder)
               ∨ (∃ (n : nat) g o,
                    p = [index + 1 + Z.of_nat n; o] ∧ rest !! n = Some g
                    ∧ isMarker g = false
                    ∧ 0 < o < Z.of_nat (String.length (text g))
                    ∧ textBefore (S n) (f :: rest) + o = remainder) →
               (∃ n : nat,
                  p = [index + Z.of_nat n] ∧ (n ≤ length (f :: rest))%nat
                  ∧ textBefore n (f :: rest) = remainder)
               ∨ (∃ (n : nat) g o,
                    p = [index + Z.of_nat n; o] ∧ (f :: rest) !! n = Some g
                    ∧ isMarker g = false
                    ∧ 0 < o < Z.of_nat (String.length (text g))
                    ∧ textBefore n (f :: rest) + o = remainder)) as Hshift.
  { intros p [(n & -> & Hn & Ht) | (n & g & o & -> & Hg & Hm & Ho & Ht)].
    - left. exists (S n). split; [f_equal; lia |]. split; [simpl; lia | exact Ht].
    - right. exists (S n), g, o. split; [f_equal; lia |]. auto. }
  destruct (isMarker f) eqn:Hm.
  - apply Hshift.
    destruct (IH (index + 1) remainder path Hpos Hrun)
      as [(n & -> & Hn & Ht) | (n & g & o & -> & Hg & Hmg & Ho & Ht)].
    + left. exists n. rewrite textBefore_S_marker by exact Hm. auto.
    + right. exists n, g, o. rewrite textBefore_S_marker by exact Hm. auto.
  - destruct (remainder - Z.of_nat (String.length (text f)) =? 0) eqn:E0.
    + inversion Hrun; subst path. apply Hshift. left. exists 0%nat.
      split; [f_equal; lia |]. split; [lia |].
      rewrite textBefore_S_text by exact Hm. unfold textBefore. cbn [take filter].
      unfold fragmentsLength. simpl. lia.
    + destruct (remainder - Z.of_nat (String.length (text f)) <? 0) eqn:E1.
      * inversion Hrun; subst path. right. exists 0%nat, f, remainder.
        split; [f_equal; f_equal; lia |]. split; [reflexivity |].
        split; [exact Hm |]. split; [lia |].
        unfold textBefore, fragmentsLength. simpl. lia.
      * apply Hshift.
        destruct (IH (index + 1) (remainder - Z.of_nat (String.length (text f)))
                    path ltac:(lia) Hrun)
          as [(n & -> & Hn & Ht) | (n & g & o & -> & Hg & Hmg & Ho & Ht)].
        -- left. exists n. rewrite textBefore_S_text by exact Hm.
           repeat split; [exact Hn | lia].
        -- right. exists n, g, o. rewrite textBefore_S_text by exact Hm.
           repeat split; try assumption; lia.
Qed.

(** X6. For an offset within the text of the fragments, [fragmentedOffset]
    returns either the index of a place between fragments with exactly
    [offset] characters of text before it, or the index of a text fragment
    and an offset strictly inside it that together account for [offset]
    characters; markers count for the index and not for the text. *)
Theorem fragmentedOffset_position (record : Boromir) (offset : Z) :
  0 ≤ offset ≤ fragmentsTotal record →
  ∃ path,
    fragmentedOffset record offset = Ok path
    ∧ ((∃ n : nat,
          path = [Z.of_nat n] ∧ (n ≤ length (children record))%nat
          ∧ textBefore n (children record) = offset)
       ∨ (∃ (n : nat) f o,
            path = [Z.of_nat n; o] ∧ children record !! n = Some f
            ∧ isMarker f = false
            ∧ 0 < o < Z.of_nat (String.length (text f))
            ∧ textBefore n (children record) + o = offset)).
Proof.
  intros [Hlo Hhi]. unfold fragmentedOffset.
  destruct (offset =? 0) eqn:E0.
  - exists [0]. split; [reflexivity |]. left. exists 0%nat.
    repeat split; [lia |]. unfold textBefore, fragmentsLength. simpl. lia.
  - destruct (fragmentedOffsetFrom_bounds (children record) 0 offset ltac:(lia))
      as [_ Hok].
    destruct (Hok Hhi) as [path Hpath].
    exists path. split; [exact Hpath |].
    apply (fragmentedOffsetFrom_position _ 0 offset path ltac:(lia) Hpath).
Qed.

(** ** Positions inside a text node *)

Lemma substring_split (s : string) :
  ∀ n, (n ≤ String.length s)%nat →
    String.substring 0 n s +:+ String.substring n (String.length s - n) s = s
    ∧ String.length (String.substring 0 n s) = n.
Proof.
  induction s as [|c s IH]; intros n Hn.
  - simpl in Hn. replace n with 0%nat by lia. split; reflexivity.
  - destruct n as [|n]; cbn [String.substring String.length Nat.sub].
    + assert (String.substring 0 (String.length s) s = s) as Hall.
      { clear. induction s as [|c s IH]; [reflexivity |].
        cbn [String.substring String.length]. f_equal. exact IH. }
      rewrite Hall. split; reflexivity.
    + simpl in Hn. destruct (IH n ltac:(lia)) as [Hcat Hlen].
      split; [| cbn [String.length]; f_equal; exact Hlen].
      change (String c (String.substring 0 n s
                        +:+ String.substring n (String.length s - n) s)
              = String c s).
      f_equal. exact Hcat.
Qed.

Lemma splitText_parts (s : string) (offset : Z) :
  0 ≤ offset →
  fst (splitText s offset) +:+ snd (splitText s offset) = s
  ∧ String.length (fst (splitText s offset))
    = Nat.min (Z.to_nat offset) (String.length s).
Proof.
  intros Hoff. unfold splitText, substr. cbn [fst snd].
  change (clampIndex (String.length s) 0) with 0%nat.
  rewrite Nat.sub_0_r, clampIndex_nonneg by lia.
  apply substring_split. lia.
Qed.

(** X7. Entering a text node at a non-negative offset cuts its text in
    two strings that make up the text again, the first of the length of
    the offset (or of the whole text if the offset is larger), and pushes
    the Location as the innermost frame; going up from there rebuilds a
    text node of the same structure. Path resolution stops at a text node:
    the offsets that follow in the path are not read. *)
Theorem locationInText_roundtrip (loc : Location) (r : Boromir)
  (rest : list Item) (offset : Z) (more : list Z) (h : Heap) :
  rights loc = Arr (IRec r :: rest) → isTextRecord r = true →
  isMarker r = false → 0 ≤ offset →
  ∃ a b r',
    locationInText loc offset
    = Ok (mkLocation [IStr a] (Arr [IStr b]) (frames loc ++ [loc]))
    ∧ a +:+ b = text r
    ∧ String.length a = Nat.min (Z.to_nat offset) (String.length (text r))
    ∧ traverse loc (offset :: more) h
      = Ok (mkLocation [IStr a] (Arr [IStr b]) (frames loc ++ [loc]), h)
    ∧ up (mkLocation [IStr a] (Arr [IStr b]) (frames loc ++ [loc])) h
      = Ok (mkLocation (lefts loc) (Arr (IRec r' :: rest)) (frames loc), bump h)
    ∧ shape r' = shape r.
Proof.
  intros Hrs Ht Hm Hoff.
  assert (after loc = Some (IRec r)) as Hafter
      by (unfold after; rewrite Hrs; reflexivity).
  destruct (splitText_parts (text r) offset Hoff) as [Hcat Hlen].
  set (a := fst (splitText (text r) offset)) in *.
  set (b := snd (splitText (text r) offset)) in *.
  assert (locationInText loc offset
          = Ok (mkLocation [IStr a] (Arr [IStr b]) (frames loc ++ [loc]))) as Hin.
  { unfold locationInText. rewrite Hafter. cbn [asRecord obind].
    unfold splitContents, contents. rewrite Ht. reflexivity. }
  exists a, b,
    (mkBoromir (nextId h) (name r) (a +:+ b) (children r) (styles r)
       (isMarkerFlag r) (marker r) (boundary r) (isFragmentedTextFlag r)
       (original r)).
  split; [exact Hin |]. split; [exact Hcat |]. split; [exact Hlen |].
  split; [| split].
  - cbn [traverse]. unfold bind at 1. unfold lift at 1.
    rewrite (skipMarkers_stays _ loc r Hafter Hm).
    unfold bind at 1. unfold lift at 1. rewrite Hafter. cbn [asRecord].
    rewrite Ht, Hin. reflexivity.
  - unfold up. cbn [lefts rights frames concat app]. rewrite last_snoc.
    unfold bind at 1. unfold lift at 1. cbn [defined].
    unfold bind at 1. unfold lift at 1. rewrite Hafter. cbn [asRecord].
    unfold bind at 1. unfold contentsWith. rewrite Ht.
    unfold setText, bind, fresh, ret. cbn [join foldr].
    rewrite append_empty, slice_drop_last, Hrs. cbn [seqSlice concat app].
    rewrite slice_rest. reflexivity.
  - rewrite Hcat. apply shape_setText_same.
Qed.

(** ** Positions inside an element *)

(** X8. Entering an element at an offset puts all its children around the
    cursor and pushes the Location as the innermost frame; when no marker
    is among the first [offset] children, exactly [offset] children (or
    all of them, if there are fewer) are on the left. *)
Theorem locationInElement_position (loc : Location) (r : Boromir)
  (rest : list Item) (offset : Z) :
  rights loc = Arr (IRec r :: rest) → isTextRecord r = false →
  ∃ inner,
    locationInElement loc offset = Ok inner
    ∧ frames inner = frames loc ++ [loc]
    ∧ concat (lefts inner) (rights inner) = map IRec (children r)
    ∧ (0 ≤ offset →
       Forall (fun c => isMarker c = false)
         (take (Z.to_nat offset) (children r)) →
       lefts inner = map IRec (take (Z.to_nat offset) (children r))
       ∧ rights inner = Arr (map IRec (drop (Z.to_nat offset) (children r)))).
Proof.
  intros Hrs Ht.
  assert (after loc = Some (IRec r)) as Hafter
      by (unfold after; rewrite Hrs; reflexivity).
  unfold locationInElement, down. rewrite Hafter. cbn [asRecord obind].
  unfold contents. rewrite Ht.
  eexists. split; [reflexivity |]. split; [reflexivity |].
  unfold next, strideOr1. simpl (default _ _).
  cbn [lefts rights frames seqSlice concat app]. split.
  - apply slice_split.
  - intros Hoff Hplain.
    assert (normalizeOffset r offset = offset) as ->.
    { unfold normalizeOffset. rewrite slice_take by exact Hoff.
      replace (filter _ _) with (@nil Boromir); [simpl; lia |].
      symmetry. induction Hplain as [|c cs Hc _ IH]; [reflexivity |].
      rewrite filter_cons_False by (rewrite Hc; discriminate). exact IH. }
    rewrite slice_take, slice_drop by exact Hoff.
    rewrite firstn_map, skipn_map. split; reflexivity.
Qed.

(** ** Going up rebuilds the tree *)

Lemma up_seeded (loc f : Location) (p : Boromir) (prest rs : list Item)
  (h : Heap) :
  last (frames loc) = Some f → rights f = Arr (IRec p :: prest) →
  rights loc = Arr rs → wrappable p (lefts loc ++ rs) →
  ∃ first,
    up loc h = Ok (mkLocation (lefts f) (Arr (IRec first :: prest))
                     (slice (frames loc) 0 (Some (-1))), bump h)
    ∧ isTextRecord first = isTextRecord p
    ∧ seeded first (lefts loc ++ rs).
Proof.
  intros Hlast Hf Hrs Hw.
  destruct (contentsWith_seeded p (lefts loc ++ rs) h Hw) as (first & Hc & Hk & Hs).
  exists first. split; [| split; assumption].
  unfold up. rewrite Hlast, Hrs. unfold bind at 1. unfold lift at 1.
  cbn [defined concat]. unfold bind at 1. unfold lift at 1, after. rewrite Hf.
  cbn [seqFirst head asRecord]. unfold bind, ret. rewrite Hc.
  cbn [seqSlice concat]. rewrite slice_rest. reflexivity.
Qed.

Lemma descend_snoc (t : list nat) (i : nat) :
  ∀ T : Boromir,
    descend (t ++ [i]) T
    = match descend t T with
      | Some p => children p !! i
      | None => None
      end.
Proof.
  induction t as [|j t IH]; intros T; cbn [descend app].
  - destruct (children T !! i); reflexivity.
  - destruct (children T !! j) as [c |]; [apply IH | reflexivity].
Qed.

Lemma map_IRec_inj (a b : list Boromir) :
  map (@IRec Boundary) a = map IRec b → a = b.
Proof.
  revert b. induction a as [|x a IH]; intros [|y b] Heq; try discriminate;
    [reflexivity |].
  inversion Heq; subst. f_equal. apply IH. assumption.
Qed.

(** Applying [up] once per frame reaches the root Location; the record it
    holds has, at the end of the trail of the starting Location, a record
    seeded with what was around the cursor. *)
Lemma reduceUp_rebuilds (n : nat) :
  ∀ (loc : Location) (array : list Location) (rs : list Item) (h : Heap),
    wellFramed loc → rights loc = Arr rs →
    length (frames loc) = S n → length array = S n →
    ∃ loc' T' p' h' f p prest,
      reduceUp array loc h = Ok (loc', h')
      ∧ frames loc' = [] ∧ after loc' = Some (IRec T')
      ∧ descend (trailOf loc) T' = Some p'
      ∧ seeded p' (lefts loc ++ rs)
      ∧ last (frames loc) = Some f ∧ rights f = Arr (IRec p :: prest)
      ∧ isTextRecord p' = isTextRecord p.
Proof.
  induction n as [|n IH]; intros loc array rs h Hwf Hrs Hlen Harr.
  - destruct (wellFramed_frames loc Hwf) as (F & f & HF & HfF).
    destruct Hwf as (rs' & f' & p & prest & Hrs' & _ & Hlast & Hf & Hw).
    rewrite Hrs in Hrs'. inversion Hrs'; subst rs'. clear Hrs'.
    rewrite HF, last_snoc in Hlast. inversion Hlast; subst f'.
    assert (F = []) as ->.
    { rewrite HF, length_app in Hlen. simpl in Hlen.
      destruct F; [reflexivity | simpl in Hlen; lia]. }
    assert (last (frames loc) = Some f) as Hlast' by (rewrite HF; reflexivity).
    destruct (up_seeded loc f p prest rs h Hlast' Hf Hrs Hw)
      as (first & Hup & Hk & Hs).
    destruct array as [|x [|y array]]; try discriminate.
    exists (mkLocation (lefts f) (Arr (IRec first :: prest))
              (slice (frames loc) 0 (Some (-1)))),
      first, first, (bump h), f, p, prest.
    split; [cbn [reduceUp]; rewrite (bind_ok _ _ _ _ _ Hup); reflexivity |].
    split; [cbn [frames]; rewrite HF; apply (slice_drop_last []) |].
    split; [reflexivity |].
    split; [unfold trailOf; rewrite HF; reflexivity |].
    repeat split; assumption.
  - destruct (wellFramed_frames loc Hwf) as (F & f & HF & HfF).
    destruct Hwf as (rs' & f' & p & prest & Hrs' & Hc & Hlast & Hf & Hw).
    rewrite Hrs in Hrs'. inversion Hrs'; subst rs'. clear Hrs'.
    rewrite HF, last_snoc in Hlast. inversion Hlast; subst f'.
    assert (last (frames loc) = Some f) as Hlast' by (rewrite HF; apply last_snoc).
    destruct (up_seeded loc f p prest rs h Hlast' Hf Hrs Hw)
      as (first & Hup & Hk & Hs).
    rewrite HF, slice_drop_last in Hup.
    rewrite HF in Hc. apply chained_snoc_inv in Hc as [_ [-> | Hpush]].
    { rewrite HF, length_app in Hlen. simpl in Hlen. lia. }
    destruct Hpush as (fs & g & q & p0 & ls0 & prest0 & -> & HcF & Hg & Hq & Hl & Hr).
    rewrite Hr in Hf. inversion Hf; subst p0 prest. clear Hf.
    assert (∃ grest, rights g = Arr (IRec q :: grest)) as [grest Hgr].
    { unfold after in Hg. destruct (rights g) as [[|x items]|[|c s]]; try discriminate.
      simpl in Hg. inversion Hg; subst. eauto. }
    set (upper := mkLocation (lefts f) (Arr (IRec first :: map IRec prest0))
                    (fs ++ [g])) in *.
    assert (wellFramed upper) as Hwfu.
    { exists (IRec first :: map IRec prest0), g, q, grest.
      unfold upper. cbn [lefts rights frames]. rewrite last_snoc.
      repeat split; [exact HcF | exact Hgr |].
      intros _. exists (ls0 ++ first :: prest0).
      rewrite Hl, map_app. reflexivity. }
    destruct array as [|x array]; [discriminate |].
    destruct (IH upper array (IRec first :: map IRec prest0) (bump h) Hwfu
                eq_refl)
      as (loc' & T' & p'' & h' & g' & q' & grest' & Hrun & Hfr & Hafter & Hdesc
          & Hseed & Hlastg & Hg' & Hkq).
    { unfold upper. cbn [frames]. rewrite HF, length_app in Hlen.
      simpl in Hlen. lia. }
    { simpl in Harr. lia. }
    unfold upper in Hlastg. cbn [frames] in Hlastg.
    rewrite last_snoc in Hlastg. inversion Hlastg; subst g'. clear Hlastg.
    rewrite Hgr in Hg'. inversion Hg'; subst q' grest'. clear Hg'.
    rewrite Hq in Hkq.
    unfold seeded, contents in Hseed. rewrite Hkq in Hseed.
    unfold upper in Hseed. cbn [lefts] in Hseed. rewrite Hl in Hseed.
    inversion Hseed as [Hkids].
    change (map IRec ls0 ++ IRec first :: map IRec prest0)
      with (map IRec ls0 ++ map (@IRec Boundary) (first :: prest0)) in Hkids.
    rewrite <- map_app in Hkids. apply map_IRec_inj in Hkids.
    exists loc', T', first, h', f, p, (map IRec prest0).
    split; [cbn [reduceUp]; rewrite (bind_ok _ _ _ _ _ Hup); exact Hrun |].
    split; [exact Hfr |]. split; [exact Hafter |].
    split.
    + assert (trailOf loc = trailOf upper ++ [length ls0]) as ->.
      { unfold trailOf, upper. cbn [frames]. rewrite HF.
        destruct fs as [|x0 fs]; cbn [app tail].
        - cbn [map]. rewrite Hl, length_map. reflexivity.
        - rewrite map_app. cbn [map]. rewrite Hl, length_map. reflexivity. }
      rewrite descend_snoc, Hdesc, Hkids.
      apply list_lookup_middle. reflexivity.
    + repeat split; assumption.
Qed.

(** X9. From every well-framed Location [root] succeeds and returns a
    Location without frames, positioned on the rebuilt root record; in
    that record, following the indices of the frames leads to a record
    that holds exactly what was left and right of the cursor. Edits made
    at a Location are thus part of the tree once one goes up. *)
Theorem root_rebuilds_content (loc : Location) (rs : list Item) (h : Heap) :
  wellFramed loc → rights loc = Arr rs →
  ∃ loc' T' p' h',
    root loc h = Ok (loc', h')
    ∧ frames loc' = []
    ∧ after loc' = Some (IRec T')
    ∧ descend (trailOf loc) T' = Some p'
    ∧ seeded p' (lefts loc ++ rs).
Proof.
  intros Hwf Hrs.
  destruct (wellFramed_frames loc Hwf) as (F & f & HF & _).
  destruct (reduceUp_rebuilds (length F) loc (frames loc) rs h Hwf Hrs)
    as (loc' & T' & p' & h' & _ & _ & _ & Hrun & Hfr & Hafter & Hdesc & Hseed & _).
  { rewrite HF, length_app. simpl. lia. }
  { rewrite HF, length_app. simpl. lia. }
  exists loc', T', p', h'. repeat split; assumption.
Qed.

(** ** Marking inside a text node *)

Lemma createRecord_text (h : Heap) :
  createRecord "#text" None h = Ok (textNode (nextId h) "", bump h).
Proof. reflexivity. Qed.

Lemma contentsWith_textNode (i : nat) (s : string) (items : list Item)
  (h : Heap) :
  contentsWith (textNode i s) (Arr items) h
  = Ok (textNode (nextId h) (join items), bump h).
Proof. reflexivity. Qed.

(** X10. A marker placed inside a text node does not cost the text node
    its identity. [mark] wraps the text in a fragmented text whose
    [original] is the record [up] rebuilds from the text Location; going
    up with the marker between the two fragments and defragmenting the
    wrapper returns that very record, not a copy. *)
Theorem mark_then_defragment (loc f : Location) (p : Boromir)
  (prest : list Item) (s : string) (rs : list Item) (m : Boromir) (h : Heap) :
  last (frames loc) = Some f → rights f = Arr (IRec p :: prest) →
  rights loc = Arr (IStr s :: rs) →
  isTextRecord p = true → isTextRecord m = false →
  ∃ atText o h',
    up loc h = Ok (atText, bump h)
    ∧ after atText = Some (IRec o)
    ∧ text o = join (lefts loc ++ IStr s :: rs)
    ∧ (let* marked := mark loc m in
       let* back := up marked in
       let* wrapper := lift (asRecord (after back)) in
       defragmentText wrapper) h = Ok (o, h').
Proof.
  intros Hlast Hf Hrs Hp Hm.
  destruct (up_seeded loc f p prest (IStr s :: rs) h Hlast Hf Hrs)
    as (o & Hup & Hko & Hso); [intros E; congruence |].
  set (atText := mkLocation (lefts f) (Arr (IRec o :: prest))
                   (slice (frames loc) 0 (Some (-1)))) in *.
  assert (text o = join (lefts loc ++ IStr s :: rs)) as Htext.
  { unfold seeded, contents in Hso. rewrite Hko, Hp in Hso.
    inversion Hso. reflexivity. }
  set (h1 := bump h).
  set (wrapper := mkBoromir (nextId h1) "Q" "" [] [] false None None true (Some o)).
  set (l := textNode (nextId (bump (bump h1))) (join (lefts loc)) : Boromir).
  set (r := textNode (nextId (bump (bump (bump (bump h1)))))
              (join (IStr s :: rs)) : Boromir).
  set (h6 := bump (bump (bump (bump (bump h1))))).
  set (repl := replace atText (ROne wrapper)).
  assert (FragmentedText loc h
          = Ok (mkLocation [IRec l] (Arr [IRec r]) (frames atText ++ [repl]), h6))
    as Hfrag.
  { unfold FragmentedText. rewrite (bind_ok _ _ _ _ _ Hup).
    unfold bind at 1. unfold newElement at 1, bind at 1, fresh at 1, ret at 1.
    rewrite (bind_ok _ _ _ _ _ (createRecord_text _)).
    rewrite (bind_ok _ _ _ _ _ (contentsWith_textNode _ _ _ _)).
    rewrite (bind_ok _ _ _ _ _ (createRecord_text _)).
    rewrite Hrs.
    rewrite (bind_ok _ _ _ _ _ (contentsWith_textNode _ _ _ _)).
    reflexivity. }
  set (w := mkBoromir (nextId h6) "Q" "" [l; m; r] [] false None None true (Some o)).
  assert (up (insert (mkLocation [IRec l] (Arr [IRec r]) (frames atText ++ [repl]))
                (ROne m)) h6
          = Ok (mkLocation (lefts f) (Arr (IRec w :: prest))
                  (slice (frames atText ++ [repl]) 0 (Some (-1))), bump h6))
    as Hback.
  { unfold up, insert, splice. cbn [lefts rights frames]. rewrite last_snoc.
    unfold bind at 1. unfold lift at 1. cbn [defined].
    unfold bind at 1. unfold lift at 1.
    unfold repl, replace, splice, atText.
    cbn [lefts rights frames after seqFirst seqSlice concat app head asRecord].
    rewrite slice_whole, !slice_rest. reflexivity. }
  exists atText, o, (bump h6).
  split; [exact Hup |]. split; [reflexivity |]. split; [exact Htext |].
  assert (isTextLocation loc = true) as Htl
      by (unfold isTextLocation, after; rewrite Hrs; reflexivity).
  unfold mark. rewrite Htl.
  unfold bind at 1. unfold bind at 1. rewrite Hfrag. unfold ret at 1.
  rewrite (bind_ok _ _ _ _ _ Hback).
  unfold bind at 1. unfold lift at 1. cbn [after rights seqFirst head asRecord].
  unfold defragmentText. cbn [children original w].
  rewrite filter_cons_True by reflexivity.
  rewrite filter_cons_False by (rewrite Hm; discriminate).
  rewrite filter_cons_True by reflexivity.
  rewrite filter_nil. cbn [map text l r textNode String.concat].
  rewrite Htext, join_app.
  change ("" +:+ join (IStr s :: rs)) with (join (IStr s :: rs)).
  rewrite String.eqb_refl. reflexivity.
Qed.

(** ** The walk of [update] *)

Lemma shape_fields (r : Boromir) :
  shape r = mkShape (name r) (text r) (map shape (children r)) (styles r)
              (isMarkerFlag r) (marker r) (boundary r)
              (isFragmentedTextFlag r) (original r).
Proof. destruct r. reflexivity. Qed.

Lemma cleaned_unfold (r : Boromir) :
  cleaned r
  = if isLeaf r then tidied (shape r)
    else tidied (mkShape (name r) (text r) (flat_map cleaned (children r))
                   (styles r) (isMarkerFlag r) (marker r) (boundary r)
                   (isFragmentedTextFlag r) (original r)).
Proof. destruct r. reflexivity. Qed.

Lemma marksOf_unfold (trail : list Z) (underQ : bool) (before : list Shape)
  (r : Boromir) :
  marksOf trail underQ before r
  = if isLeaf r then
      if isMarker r then [(marker r, trail ++ [offsetAmong underQ before])]
      else []
    else marksAmong (trail ++ [Z.of_nat (length before)]) (isFragmentedText r)
           [] (children r).
Proof.
  destruct r as [i n t kids st m mn b f o]. cbn [marksOf].
  destruct (isLeaf _); [reflexivity |].
  cbn [children]. generalize (@nil (@Shape Boundary)) as seen.
  induction kids as [|k kids IH]; intros seen; [reflexivity |].
  cbn [marksAmong]. rewrite <- IH. reflexivity.
Qed.

Lemma shapeIsText_shape (r : Boromir) : shapeIsText (shape r) = isTextRecord r.
Proof. destruct r. reflexivity. Qed.

Lemma shapeText_shape (r : Boromir) : shapeText (shape r) = text r.
Proof. destruct r. reflexivity. Qed.

Lemma text_of_shapes (kids : list Boromir) :
  map shapeText (filter (fun k => shapeIsText k = true) (map shape kids))
  = map text (filter (fun r => isTextRecord r = true) kids).
Proof.
  induction kids as [|k kids IH]; [reflexivity |].
  cbn [map]. destruct (isTextRecord k) eqn:E.
  - rewrite !filter_cons_True by (rewrite ?shapeIsText_shape; exact E).
    cbn [map]. rewrite shapeText_shape, IH. reflexivity.
  - rewrite !filter_cons_False
      by (rewrite ?shapeIsText_shape, E; discriminate).
    exact IH.
Qed.

Lemma offsetAmong_records (underQ : bool) (ls : list Boromir) :
  (if underQ
   then fragmentsLength (filter (fun r => isTextRecord r = true) ls)
   else Z.of_nat (length ls))
  = offsetAmong underQ (map shape ls).
Proof.
  unfold offsetAmong. destruct underQ; [| by rewrite length_map].
  induction ls as [|r ls IH]; [reflexivity |].
  cbn [map]. destruct (isTextRecord r) eqn:E.
  - rewrite !filter_cons_True by (rewrite ?shapeIsText_shape; exact E).
    rewrite fragmentsLength_cons. cbn [foldr].
    rewrite shapeText_shape, IH. reflexivity.
  - rewrite !filter_cons_False
      by (rewrite ?shapeIsText_shape, E; discriminate).
    exact IH.
Qed.

Lemma createRecord_text_content (s : string) (h : Heap) :
  createRecord "#text" (Some [IStr s]) h
  = Ok (textNode (S (nextId h)) s, bump (bump h)).
Proof.
  unfold createRecord, contentsWith, newTextNode, setText, bind, ret, fresh,
    textNode, bump. simpl. rewrite append_empty. reflexivity.
Qed.

(** What the callback of [update] answers: at most one record, of the
    structure [tidied] gives, and the path of a marker. *)
Lemma updateMutate_tidied (r : Boromir) (trail : list Z)
  (paths : list (option string * list Z)) (h : Heap) :
  ∃ outs h',
    updateMutate r trail paths h
    = Ok ((map IRec outs,
           paths ++ if isMarker r then [(marker r, trail)] else []), h')
    ∧ map shape outs = tidied (shape r).
Proof.
  destruct r as [i n t kids st m mn b f o].
  unfold updateMutate. cbn [shape tidied].
  unfold isMarker, isFragmentedText, isTextRecord.
  cbn [isMarkerFlag name children original marker].
  destruct m.
  { exists [], h. split; reflexivity. }
  rewrite app_nil_r.
  destruct (String.eqb "Q" n).
  { unfold defragmentText. cbn [children original]. rewrite text_of_shapes.
    set (joined := String.concat "" _).
    assert (∃ outs h', (let* t := createRecord "#text" (Some [IStr joined]) in
                        ret ([IRec t], paths)) h
                       = Ok ((map IRec outs, paths), h')
                       ∧ map shape outs = [textShape joined]) as Hfresh.
    { eexists [_], _. unfold bind. rewrite createRecord_text_content.
      split; reflexivity. }
    destruct o as [o |]; [| exact Hfresh].
    destruct (String.eqb (text o) joined); [| exact Hfresh].
    exists [o], h. split; reflexivity. }
  destruct (String.eqb "#text" n) eqn:Ht; cbn [negb].
  { eexists [_], h. split; reflexivity. }
  rewrite length_map.
  destruct (Nat.eqb (length kids) 0);
    eexists [_], _; (split; [reflexivity |]); reflexivity.
Qed.

Lemma jump_replace_many (ls : list Boromir) (c : Boromir) (rs : list Boromir)
  (fs : list Location) (outs : list Boromir) :
  jump (replace (recLoc ls (c :: rs) fs) (RMany (map IRec outs)))
    (Z.of_nat (length (map (@IRec Boundary) outs)))
  = recLoc (ls ++ outs) rs fs.
Proof.
  unfold replace, splice, jump, recLoc.
  cbn [lefts rights frames seqSlice concat map]. rewrite slice_rest.
  rewrite length_map.
  destruct outs as [|x outs].
  - cbn [length map app]. rewrite app_nil_r. reflexivity.
  - replace (Z.of_nat (length (x :: outs)) =? 0) with false
      by (symmetry; apply Z.eqb_neq; simpl; lia).
    unfold next, strideOr1. simpl (default _ _).
    cbn [lefts rights frames seqSlice concat].
    rewrite slice_take, slice_drop by lia. rewrite Nat2Z.id.
    change (S (length outs)) with (length (x :: outs)).
    rewrite <- (length_map (@IRec Boundary) (x :: outs)).
    rewrite take_app_length, drop_app_length, map_app. reflexivity.
Qed.

(** At the end of the children the parent is rebuilt and, below the root,
    handed to the callback. *)
Lemma postOrder_turn_up_any {Acc : Type}
  (mutate : Boromir → list Z → Acc → M (list Item * Acc))
  (done : list Boromir) (fs : list Location)
  (g : Location) (ls : list Boromir) (r : Boromir) (rs : list Boromir)
  (pfs : list Location) (trail : list Z) (acc : Acc) (h : Heap) :
  walkPostOrderTurn mutate
    (recLoc done [] ((fs ++ [g]) ++ [recLoc ls (r :: rs) pfs])) trail acc h
  = (let* res := mutate (rebuild (nextId h) r done)
                   (slice trail 0 (Some (-1))) acc in
     ret (inr (jump (replace (recLoc ls (rebuild (nextId h) r done :: rs)
                                (fs ++ [g]))
                       (RMany (fst res)))
                 (Z.of_nat (length (fst res))),
               slice trail 0 (Some (-1)), snd res))) (bump h).
Proof.
  unfold walkPostOrderTurn. rewrite isAtEnd_recLoc.
  unfold bind at 1. rewrite up_recLoc. rewrite app_nil_r.
  rewrite isRoot_recLoc_snoc.
  unfold bind at 1. unfold lift at 1. reflexivity.
Qed.

Lemma update_siblings (pending : list Boromir) :
  Forall tidiesPostOrder pending →
  ∀ (done : list Boromir) (fs : list Location) (pls : list Boromir)
    (p : Boromir) (prs : list Boromir) (pfs : list Location) (trail : list Z)
    (paths : list (option string * list Z)) (h : Heap),
  ∃ k out h',
    (∀ fuel,
       walkPostOrderLoop (k + fuel) updateMutate
         (recLoc done pending (fs ++ [recLoc pls (p :: prs) pfs])) trail paths h
       = walkPostOrderLoop fuel updateMutate
           (recLoc (done ++ out) [] (fs ++ [recLoc pls (p :: prs) pfs])) trail
           (paths ++ marksAmong trail (isFragmentedText p) (map shape done)
                       pending) h')
    ∧ map shape out = flat_map cleaned pending.
Proof.
  induction 1 as [|c pending Hc _ IH];
    intros done fs pls p prs pfs trail paths h.
  - exists 0%nat, [], h. split; [| reflexivity].
    intros fuel. cbn [marksAmong]. rewrite !app_nil_r. reflexivity.
  - destruct (Hc done pending fs pls p prs pfs trail paths h)
      as (k1 & out1 & h1 & Hrun1 & Hshape1).
    destruct (IH (done ++ out1) fs pls p prs pfs trail
                (paths ++ marksOf trail (isFragmentedText p) (map shape done) c)
                h1)
      as (k2 & out2 & h2 & Hrun2 & Hshape2).
    exists (k1 + k2)%nat, (out1 ++ out2), h2. split.
    + intros fuel. rewrite <- Nat.add_assoc, Hrun1, Hrun2.
      cbn [marksAmong]. rewrite map_app, Hshape1, <- !app_assoc. reflexivity.
    + cbn [flat_map]. rewrite map_app, Hshape1, Hshape2. reflexivity.
Qed.

Lemma update_subtree (r : Boromir) : tidiesPostOrder r.
Proof.
  induction r as [r IHkids] using Boromir_tree_ind.
  intros ls rs fs pls p prs pfs trail paths h.
  rewrite cleaned_unfold, marksOf_unfold.
  destruct (isLeaf r) eqn:Hleaf.
  - destruct (updateMutate_tidied r
                (trail ++ [offsetAmong (isFragmentedText p) (map shape ls)])
                paths (bump h)) as (outs & h1 & Hmut & Hshape).
    exists 1%nat, outs, h1. split; [| exact Hshape].
    intros fuel. apply walkPostOrderLoop_turn.
    rewrite postOrder_turn_leaf_offset by exact Hleaf.
    rewrite offsetAmong_records. rewrite (bind_ok _ _ _ _ _ Hmut).
    cbn [fst snd]. rewrite jump_replace_many. reflexivity.
  - destruct (update_siblings (children r) IHkids []
                (fs ++ [recLoc pls (p :: prs) pfs]) ls r rs
                (fs ++ [recLoc pls (p :: prs) pfs])
                (trail ++ [Z.of_nat (length (map (@IRec Boundary) ls))]) paths h)
      as (k & kids' & h1 & Hrun & Hshape).
    destruct (updateMutate_tidied (rebuild (nextId h1) r kids') trail
                (paths ++ marksAmong
                            (trail ++ [Z.of_nat (length (map (@IRec Boundary) ls))])
                            (isFragmentedText r) (map shape []) (children r))
                (bump h1)) as (outs & h2 & Hmut & Hshape2).
    assert (isTextRecord r = false) as Ht by (apply isLeaf_false_not_text, Hleaf).
    assert (isMarker (rebuild (nextId h1) r kids') = false) as Hm.
    { unfold rebuild. rewrite Ht. unfold isMarker. cbn [isMarkerFlag].
      unfold isLeaf, isMarker in Hleaf.
      destruct (isMarkerFlag r); [| reflexivity].
      rewrite ?orb_true_r in Hleaf. discriminate. }
    rewrite Hm, app_nil_r in Hmut.
    exists (S (k + 1)), outs, h2. split.
    + intros fuel.
      replace (S (k + 1) + fuel)%nat with (S (k + S fuel)) by lia.
      rewrite (walkPostOrderLoop_turn _ _ _ _ _ _ _ _ _ _
                 (postOrder_turn_down updateMutate ls r rs _ trail paths h Hleaf)).
      rewrite isRoot_recLoc_snoc, Hrun. rewrite app_nil_l.
      apply walkPostOrderLoop_turn.
      rewrite postOrder_turn_up_any, slice_drop_last.
      rewrite (bind_ok _ _ _ _ _ Hmut). cbn [fst snd].
      rewrite jump_replace_many.
      rewrite !length_map. reflexivity.
    + rewrite Hshape2. unfold rebuild. rewrite Ht. cbn [shape].
      rewrite Hshape. reflexivity.
Qed.

(** The whole walk of [update] from the root of a tree whose root is not a
    leaf. *)
Lemma update_walk_run (T : Boromir) (h : Heap) :
  isLeaf T = false →
  ∃ n kids' h1,
    (∀ fuel, (n ≤ fuel)%nat →
       walkPostOrder fuel (create T) updateMutate [] h
       = Ok ((create (rebuild (nextId h1) T kids'),
              marksAmong [] (isFragmentedText T) [] (children T)), bump h1))
    ∧ map shape kids' = flat_map cleaned (children T).
Proof.
  intros Hleaf.
  pose proof (Forall_forall tidiesPostOrder (children T)) as [_ Hall].
  specialize (Hall (fun c _ => update_subtree c)).
  destruct (update_siblings (children T) Hall [] [] [] T [] [] [] [] h)
    as (k & kids' & h1 & Hrun & Hshape).
  rewrite !app_nil_l in Hrun.
  exists (S (k + 1)), kids', h1. split; [| exact Hshape].
  intros fuel Hfuel.
  replace fuel with (S (k + S (fuel - S (k + 1)))) by lia.
  unfold walkPostOrder, root. simpl (reduceUp _ _). unfold bind at 1, ret at 1.
  change (create T) with (recLoc [] [T] []).
  rewrite (walkPostOrderLoop_turn _ _ _ _ _ _ _ _ _ _
             (postOrder_turn_down updateMutate [] T [] [] [] [] h Hleaf)).
  simpl (if isRoot _ then _ else _). rewrite app_nil_l, Hrun.
  simpl. unfold bind.
  rewrite (postOrder_turn_finish updateMutate kids' [] T [] [] [] _ h1).
  reflexivity.
Qed.

Lemma children_rebuild (i : nat) (p : Boromir) (kids : list Boromir) :
  isLeaf p = false → children (rebuild i p kids) = kids.
Proof.
  intros Hleaf. unfold rebuild.
  rewrite (isLeaf_false_not_text _ Hleaf). reflexivity.
Qed.

Lemma isVoid_create (T : Boromir) : isVoid (create T) = Ok (isLeaf T).
Proof. reflexivity. Qed.

Lemma create_not_void (T : Boromir) :
  isVoid (create T) = Ok false → isLeaf T = false.
Proof. rewrite isVoid_create. intros H. inversion H. reflexivity. Qed.

(** X11. The walk of [update] over a tree whose root is not a leaf ends,
    given enough fuel, at the root Location of a rebuilt root: its children
    are the [cleaned] children of the input (markers dropped, fragmented
    texts joined, elements outlined), the root record itself is never handed
    to the callback (name and styles kept), and the paths collected are
    those of the markers, counted among the records already cleaned. *)
Theorem update_walk_tidies (T : Boromir) (h : Heap) :
  isVoid (create T) = Ok false →
  ∃ n T' h',
    (∀ fuel, (n ≤ fuel)%nat →
       walkPostOrder fuel (create T) updateMutate [] h
       = Ok ((create T',
              marksAmong [] (isFragmentedText T) [] (children T)), h'))
    ∧ map shape (children T') = flat_map cleaned (children T)
    ∧ name T' = name T ∧ styles T' = styles T.
Proof.
  intros Hvoid. apply create_not_void in Hvoid.
  destruct (update_walk_run T h Hvoid) as (n & kids' & h1 & Hwalk & Hshape).
  exists n, (rebuild (nextId h1) T kids'), (bump h1).
  split; [exact Hwalk |]. rewrite children_rebuild by exact Hvoid.
  split; [exact Hshape |].
  unfold rebuild. rewrite (isLeaf_false_not_text _ Hvoid).
  split; reflexivity.
Qed.

(** X12. [update] on such a tree returns, given enough fuel, the markers'
    names mapped to the boundaries that the host resolves their paths to in
    the rebuilt root; a tree in which the walk meets no marker gives the
    empty map. *)
Theorem update_resolves_markers (T : Boromir) (h : Heap) :
  isVoid (create T) = Ok false →
  ∃ n T' h',
    (∀ fuel, (n ≤ fuel)%nat →
       update fuel (create T) h
       = Ok (foldl (fun markers mark =>
                      <[default "undefined" (fst mark) :=
                          boundaryOfPath T' (snd mark)]> markers)
               ∅ (marksAmong [] (isFragmentedText T) [] (children T)), h'))
    ∧ map shape (children T') = flat_map cleaned (children T)
    ∧ (marksAmong [] (isFragmentedText T) [] (children T) = [] →
       ∀ fuel, (n ≤ fuel)%nat → update fuel (create T) h = Ok (∅, h')).
Proof.
  intros Hvoid. apply create_not_void in Hvoid.
  destruct (update_walk_run T h Hvoid) as (n & kids' & h1 & Hwalk & Hshape).
  exists n, (rebuild (nextId h1) T kids'), (bump h1).
  split; [| split].
  - intros fuel Hfuel. unfold update.
    rewrite (bind_ok _ _ _ _ _ (Hwalk fuel Hfuel)). reflexivity.
  - rewrite children_rebuild by exact Hvoid. exact Hshape.
  - intros Hnone fuel Hfuel. unfold update.
    rewrite (bind_ok _ _ _ _ _ (Hwalk fuel Hfuel)). cbn [fst snd].
    rewrite Hnone. reflexivity.
Qed.

Lemma settled_unfold (r : Boromir) :
  settled r
  = (isMarker r
     || ((if isFragmentedText r
          then match original r with
               | Some orig => markerFree (shape orig)
               | None => true
               end
          else true)
         && (if isLeaf r
             then forallb (fun k => markerFree (shape k)) (children r)
             else forallb settled (children r)))).
Proof. destruct r. reflexivity. Qed.

Lemma forallb_flat_map {A B : Type} (p : B → bool) (f : A → list B)
  (l : list A) :
  forallb p (flat_map f l) = forallb (fun a => forallb p (f a)) l.
Proof.
  induction l as [|a l IH]; [reflexivity |].
  cbn [flat_map forallb]. rewrite forallb_app, IH. reflexivity.
Qed.

Lemma forallb_over_map {A B : Type} (p : B → bool) (f : A → B) (l : list A) :
  forallb p (map f l) = forallb (fun a => p (f a)) l.
Proof.
  induction l as [|a l IH]; [reflexivity |].
  cbn [map forallb]. rewrite IH. reflexivity.
Qed.

(** What the callback leaves in the place of a record holds no marker, if
    the children put below it hold none. *)
Lemma tidied_markerFree (n t : string) (kids : list Shape)
  (st : list (string * string)) (m : bool) (mn : option string)
  (b : option Boundary) (f : bool) (o : option Boromir) :
  (m = false → String.eqb "Q" n = true →
   match o with Some orig => markerFree (shape orig) = true | None => True end) →
  (m = false → String.eqb "Q" n = false → forallb markerFree kids = true) →
  forallb markerFree (tidied (mkShape n t kids st m mn b f o)) = true.
Proof.
  intros Horig Hkids. cbn [tidied].
  destruct m; [reflexivity |].
  destruct (String.eqb "Q" n).
  - specialize (Horig eq_refl eq_refl).
    destruct o as [orig |]; [| reflexivity].
    destruct (String.eqb (text orig) _); [| reflexivity].
    cbn [forallb]. rewrite Horig. reflexivity.
  - specialize (Hkids eq_refl eq_refl).
    destruct (negb _); cbn [forallb markerFree negb];
      rewrite Hkids; reflexivity.
Qed.

Lemma cleaned_markerFree (r : Boromir) :
  settled r = true → forallb markerFree (cleaned r) = true.
Proof.
  induction r as [r IHkids] using Boromir_tree_ind.
  rewrite settled_unfold, cleaned_unfold. intros Hset.
  destruct (isLeaf r) eqn:Hleaf.
  - rewrite shape_fields. apply tidied_markerFree.
    + intros Hm HQ. unfold isMarker, isFragmentedText in Hset.
      rewrite Hm, HQ in Hset. cbn [orb] in Hset.
      apply andb_prop in Hset as [Ho _].
      destruct (original r); [exact Ho | exact I].
    + intros Hm HQ. unfold isMarker, isFragmentedText in Hset.
      rewrite Hm, HQ in Hset. cbn [orb andb] in Hset.
      rewrite forallb_over_map. exact Hset.
  - apply tidied_markerFree.
    + intros Hm HQ. unfold isMarker, isFragmentedText in Hset.
      rewrite Hm, HQ in Hset. cbn [orb] in Hset.
      apply andb_prop in Hset as [Ho _].
      destruct (original r); [exact Ho | exact I].
    + intros Hm HQ. unfold isMarker, isFragmentedText in Hset.
      rewrite Hm, HQ in Hset. cbn [orb andb] in Hset.
      rewrite forallb_flat_map.
      rewrite forallb_forall in Hset. apply forallb_forall. intros k Hk.
      rewrite List.Forall_forall in IHkids.
      apply IHkids; [exact Hk | apply Hset, Hk].
Qed.

(** X13. [update] leaves no marker in the tree: when every marker of the
    children is where the walk comes by (none inside a text node, a void
    element or the original of a fragmented text), no record at or below a
    child of the rebuilt root is a marker. *)
Theorem update_strips_markers (T : Boromir) (h : Heap) :
  isVoid (create T) = Ok false →
  forallb settled (children T) = true →
  ∃ n T' paths h',
    (∀ fuel, (n ≤ fuel)%nat →
       walkPostOrder fuel (create T) updateMutate [] h
       = Ok ((create T', paths), h'))
    ∧ forallb markerFree (map shape (children T')) = true.
Proof.
  intros Hvoid Hset. apply create_not_void in Hvoid.
  destruct (update_walk_run T h Hvoid) as (n & kids' & h1 & Hwalk & Hshape).
  exists n, (rebuild (nextId h1) T kids'),
    (marksAmong [] (isFragmentedText T) [] (children T)), (bump h1).
  split; [exact Hwalk |]. rewrite children_rebuild by exact Hvoid.
  rewrite Hshape, forallb_flat_map.
  rewrite forallb_forall in Hset. apply forallb_forall. intros k Hk.
  apply cleaned_markerFree, Hset, Hk.
Qed.

(** ** A marker put in by [insertMarker] and found again by [update] *)

Lemma cleaned_single (k : Boromir) :
  isMarker k = false → length (cleaned k) = 1%nat.
Proof.
  intros Hm. rewrite cleaned_unfold, shape_fields.
  unfold isMarker in Hm. rewrite Hm.
  assert (∀ n t (kids : list Shape) st mn (b : option Boundary) f
            (o : option Boromir),
            length (tidied (mkShape n t kids st false mn b f o)) = 1%nat)
    as Hone.
  { intros n t kids st mn b f o. cbn [tidied].
    destruct (String.eqb "Q" n).
    - destruct o as [orig |]; [| reflexivity].
      destruct (String.eqb (text orig) _); reflexivity.
    - destruct (negb _); reflexivity. }
  destruct (isLeaf k); apply Hone.
Qed.

Lemma cleaned_length (ks : list Boromir) :
  Forall (fun c => isMarker c = false) ks →
  length (flat_map cleaned ks) = length ks.
Proof.
  induction 1 as [|k ks Hk _ IH]; [reflexivity |].
  cbn [flat_map]. rewrite length_app, IH, (cleaned_single k Hk). reflexivity.
Qed.

Lemma marksAmong_app (trail : list Z) (underQ : bool) (before : list Shape)
  (front back : list Boromir) :
  marksAmong trail underQ before (front ++ back)
  = marksAmong trail underQ before front
    ++ marksAmong trail underQ (before ++ flat_map cleaned front) back.
Proof.
  revert before. induction front as [|k front IH]; intros before.
  - cbn [marksAmong flat_map app]. rewrite app_nil_r. reflexivity.
  - cbn [marksAmong flat_map app]. rewrite IH, <- !app_assoc. reflexivity.
Qed.

Lemma locationInElement_recLoc (ls : list Boromir) (r : Boromir)
  (rs : list Boromir) (fs : list Location) (n : nat) :
  isTextRecord r = false →
  Forall (fun c => isMarker c = false) (take n (children r)) →
  locationInElement (recLoc ls (r :: rs) fs) (Z.of_nat n)
  = Ok (recLoc (take n (children r)) (drop n (children r))
          (fs ++ [recLoc ls (r :: rs) fs])).
Proof.
  intros Ht Hplain.
  unfold locationInElement, down, after, recLoc.
  cbn [rights map seqFirst head asRecord obind frames]. unfold contents. rewrite Ht.
  assert (normalizeOffset r (Z.of_nat n) = Z.of_nat n) as ->.
  { unfold normalizeOffset. rewrite slice_take, Nat2Z.id by lia.
    replace (filter _ _) with (@nil Boromir); [simpl; lia |].
    symmetry. induction Hplain as [|c cs Hc _ IH]; [reflexivity |].
    rewrite filter_cons_False by (rewrite Hc; discriminate). exact IH. }
  unfold next, strideOr1. simpl (default _ _).
  cbn [lefts rights frames seqSlice concat app].
  rewrite slice_take, slice_drop, Nat2Z.id by lia.
  rewrite firstn_map, skipn_map. reflexivity.
Qed.

Lemma insert_recLoc (ls rs : list Boromir) (fs : list Location) (m : Boromir) :
  insert (recLoc ls rs fs) (ROne m) = recLoc ls (m :: rs) fs.
Proof.
  unfold insert, splice, recLoc. cbn [lefts rights frames seqSlice concat].
  rewrite slice_whole. reflexivity.
Qed.

(** Entering the root at offset [n] and putting a marker there rebuilds
    the root with the marker as its child number [n]. *)
Lemma insertMarker_in_root (T m : Boromir) (n : nat) (h : Heap) :
  isLeaf T = false → isFragmentedText T = false →
  Forall (fun c => isMarker c = false) (take n (children T)) →
  insertMarker m (create T) [Z.of_nat n] h
  = Ok (create (rebuild (nextId h) T
                  (take n (children T) ++ m :: drop n (children T))),
        bump h).
Proof.
  intros Hleaf HQ Hplain.
  assert (isTextRecord T = false) as Ht by (apply isLeaf_false_not_text, Hleaf).
  assert (isMarker T = false) as Hm.
  { unfold isLeaf in Hleaf. destruct (isMarker T); [| reflexivity].
    rewrite orb_true_r in Hleaf. discriminate. }
  unfold insertMarker, traverse.
  change (create T) with (recLoc [] [T] []).
  assert (skipMarkers (seqLength (rights (recLoc [] [T] []))) (recLoc [] [T] [])
          = Ok (recLoc [] [T] [])) as Hskip.
  { unfold recLoc. cbn. rewrite Hm. reflexivity. }
  unfold bind at 1. unfold bind at 1. unfold lift at 1. rewrite Hskip.
  unfold bind at 1. unfold lift at 1.
  change (asRecord (after (recLoc [] [T] []))) with (@Ok Boromir T).
  cbv iota beta. rewrite Ht, HQ.
  unfold bind at 1. unfold lift at 1.
  rewrite (locationInElement_recLoc [] T [] [] n Ht Hplain).
  cbv iota beta. unfold ret at 1.
  unfold mark. unfold bind at 1.
  assert (isTextLocation
            (recLoc (take n (children T)) (drop n (children T))
               ([] ++ [recLoc [] [T] []])) = false) as ->.
  { unfold isTextLocation, after, recLoc. cbn [rights].
    destruct (drop n (children T)); reflexivity. }
  unfold bind at 1. unfold ret at 1. cbv iota beta. unfold ret at 1.
  rewrite insert_recLoc. unfold root. cbn [frames recLoc app reduceUp].
  pose proof (up_recLoc (take n (children T)) (m :: drop n (children T)) []
                [] T [] [] h) as Hup.
  rewrite app_nil_l in Hup. unfold recLoc in Hup at 1.
  unfold bind. unfold recLoc at 1 in Hup. cbn [map] in Hup |- *.
  unfold recLoc in Hup |- *. cbn [map] in Hup |- *.
  rewrite Hup. reflexivity.
Qed.

(** X14. A marker that [insertMarker] puts at offset [n] of the root,
    where no marker is among the first [n] children, comes back from the
    walk of [update] with the path [[n]]: the rebuilt root holds it as
    child number [n], and the cleaned records before it are as many as the
    children it was inserted after. *)
Theorem marker_path_roundtrip (T m : Boromir) (n : nat) (h : Heap) :
  isVoid (create T) = Ok false → isFragmentedText T = false →
  (∀ i kids, isVoidNode (rebuild i T kids) = false) →
  isMarker m = true →
  (n ≤ length (children T))%nat →
  Forall (fun c => isMarker c = false) (take n (children T)) →
  ∃ T1 h1,
    insertMarker m (create T) [Z.of_nat n] h = Ok (create T1, h1)
    ∧ children T1 = take n (children T) ++ m :: drop n (children T)
    ∧ ∃ k T2 paths h2,
        (∀ fuel, (k ≤ fuel)%nat →
           walkPostOrder fuel (create T1) updateMutate [] h1
           = Ok ((create T2, paths), h2))
        ∧ (marker m, [Z.of_nat n]) ∈ paths.
Proof.
  intros Hvoid HQ Hstable Hm Hn Hplain. apply create_not_void in Hvoid.
  set (kids1 := take n (children T) ++ m :: drop n (children T)).
  set (T1 := rebuild (nextId h) T kids1).
  assert (isLeaf T1 = false) as Hleaf1.
  { unfold isLeaf. unfold T1 at 3. rewrite Hstable, orb_false_r.
    unfold T1, rebuild. rewrite (isLeaf_false_not_text _ Hvoid).
    unfold isMarker. cbn [name isMarkerFlag].
    unfold isLeaf, isMarker in Hvoid.
    destruct (String.eqb "#text" (name T)); [discriminate |].
    destruct (isMarkerFlag T); [discriminate | reflexivity]. }
  exists T1, (bump h). split; [| split].
  - apply insertMarker_in_root; assumption.
  - apply children_rebuild, Hvoid.
  - destruct (update_walk_run T1 (bump h) Hleaf1)
      as (k & kids' & h1 & Hwalk & _).
    eexists k, _, _, _. split; [exact Hwalk |].
    unfold T1 at 1. rewrite isFragmentedText_rebuild, HQ.
    unfold T1. rewrite (children_rebuild _ _ _ Hvoid). unfold kids1.
    rewrite marksAmong_app. apply elem_of_app. right.
    cbn [marksAmong]. apply elem_of_app. left.
    rewrite marksOf_unfold.
    assert (isLeaf m = true) as ->.
    { unfold isLeaf. rewrite Hm, orb_true_r. reflexivity. }
    rewrite Hm. unfold offsetAmong. rewrite !app_nil_l.
    rewrite (cleaned_length _ Hplain), length_take_le by exact Hn.
    apply list_elem_of_here.
Qed.

Lemma cleaned_marker (m : Boromir) : isMarker m = true → cleaned m = [].
Proof.
  intros Hm. rewrite cleaned_unfold.
  assert (isLeaf m = true) as ->.
  { unfold isLeaf. rewrite Hm, orb_true_r. reflexivity. }
  rewrite shape_fields. unfold isMarker in Hm. rewrite Hm. reflexivity.
Qed.

Lemma marksAmong_inserted (front back : list Boromir) (m : Boromir) :
  isMarker m = true →
  marksAmong [] false [] (front ++ m :: back)
  = marksAmong [] false [] front
    ++ (marker m, [Z.of_nat (length (flat_map cleaned front))])
    :: marksAmong [] false (flat_map cleaned front) back.
Proof.
  intros Hm. rewrite marksAmong_app. cbn [marksAmong].
  rewrite marksOf_unfold.
  assert (isLeaf m = true) as ->.
  { unfold isLeaf. rewrite Hm, orb_true_r. reflexivity. }
  rewrite Hm, (cleaned_marker m Hm). unfold offsetAmong.
  rewrite !app_nil_l, app_nil_r. reflexivity.
Qed.

Lemma marksAmong_nil_plain (trail : list Z) (underQ : bool)
  (kids : list Boromir) :
  ∀ before,
    marksAmong trail underQ before kids = [] →
    Forall (fun c => isMarker c = false) kids.
Proof.
  induction kids as [|c kids IH]; intros before Hnone; constructor.
  - cbn [marksAmong] in Hnone. apply List.app_eq_nil in Hnone as [Hc _].
    rewrite marksOf_unfold in Hc.
    destruct (isMarker c) eqn:Hm; [| reflexivity].
    assert (isLeaf c = true) as Hleaf.
    { unfold isLeaf. rewrite Hm, orb_true_r. reflexivity. }
    rewrite Hleaf in Hc. discriminate.
  - cbn [marksAmong] in Hnone. apply List.app_eq_nil in Hnone as [_ Hrest].
    exact (IH _ Hrest).
Qed.

Lemma Marker_record (b : Boundary) (key : string) (h : Heap) :
  ∃ m h', Marker b key h = Ok (m, h')
          ∧ isMarker m = true ∧ marker m = Some key ∧ boundary m = Some b
          ∧ markerCount h' = S (markerCount h).
Proof.
  eexists _, _. split; [unfold Marker, bind, incrMarkerCount, fresh, ret; reflexivity |].
  repeat split.
Qed.

(** X15. From [zipper] to [update] and back, on a tree whose root is not
    a leaf (not a text node, a marker or a void element, and not turned
    void by rebuilding it) and not a fragmented text (not named [Q]), and
    in which the walk of [update] meets no marker: a boundary whose path is
    the root's path followed by one offset [n] within the root's children
    is marked by [zipper] with a marker record stored under its name, and
    [update] on the marked tree returns exactly that name, mapped to the
    boundary the host resolves [[n]] to in the rebuilt root; the marker is
    gone and the children of the rebuilt root are the cleaned children of
    the input. *)
Theorem zipper_update_roundtrip (T : Boromir) (key : string) (b : Boundary)
  (n : nat) (h : Heap) :
  isVoid (create T) = Ok false → isFragmentedText T = false →
  (∀ i kids, isVoidNode (rebuild i T kids) = false) →
  pathOfBoundary b = pathOfFront T ++ [Z.of_nat n] →
  (n ≤ length (children T))%nat →
  marksAmong [] false [] (children T) = [] →
  ∃ tree m h1,
    zipper T [(key, b)] h = Ok ((tree, <[key := Some m]> ∅), h1)
    ∧ isMarker m = true ∧ boundary m = Some b
    ∧ ∃ k T2 h2,
        (∀ fuel, (k ≤ fuel)%nat →
           update fuel tree h1
           = Ok (<[key := boundaryOfPath T2 [Z.of_nat n]]> ∅, h2))
        ∧ map shape (children T2) = flat_map cleaned (children T).
Proof.
  intros Hvoid HQ Hstable Hpath Hn Hnone. apply create_not_void in Hvoid.
  pose proof (marksAmong_nil_plain _ _ _ _ Hnone) as Hplain.
  rewrite <- (take_drop n (children T)) in Hnone, Hplain.
  apply Forall_app in Hplain as [Hfront _].
  rewrite marksAmong_app, app_nil_l in Hnone.
  apply List.app_eq_nil in Hnone as [Hnone1 Hnone2].
  destruct (Marker_record b key h) as (m & h0 & HM & Hm & Hname & Hb & _).
  set (kids1 := take n (children T) ++ m :: drop n (children T)).
  set (T1 := rebuild (nextId h0) T kids1).
  assert (isLeaf T1 = false) as Hleaf1.
  { unfold isLeaf. unfold T1 at 3. rewrite Hstable, orb_false_r.
    unfold T1, rebuild. rewrite (isLeaf_false_not_text _ Hvoid).
    unfold isMarker. cbn [name isMarkerFlag].
    unfold isLeaf, isMarker in Hvoid.
    destruct (String.eqb "#text" (name T)); [discriminate |].
    destruct (isMarkerFlag T); [discriminate | reflexivity]. }
  exists (create T1), m, (bump h0). split; [| split; [exact Hm | split; [exact Hb |]]].
  - unfold zipper, markup. cbn [markupFrom]. unfold markupStep.
    cbn [fst snd]. unfold markTree.
    change (asRecord (after (create T))) with (@Ok Boromir T).
    unfold bind at 1. unfold bind at 1. unfold bind at 1. unfold lift at 1.
    cbv iota beta. rewrite Hpath. unfold clipCommonRoot.
    pose proof (clipCommonRootFrom_prefix [Z.of_nat n] (pathOfFront T) [])
      as Hclip.
    cbn [app length] in Hclip. rewrite Hclip. cbn [length Nat.eqb].
    unfold bind at 1. rewrite HM. cbv iota beta.
    unfold bind at 1.
    rewrite (insertMarker_in_root T m n h0 Hvoid HQ Hfront).
    reflexivity.
  - destruct (update_walk_run T1 (bump h0) Hleaf1)
      as (k & kids' & h1 & Hwalk & Hshape).
    exists k, (rebuild (nextId h1) T1 kids'), (bump h1). split.
    + intros fuel Hfuel. unfold update.
      rewrite (bind_ok _ _ _ _ _ (Hwalk fuel Hfuel)). cbn [fst snd].
      unfold T1 at 2. rewrite isFragmentedText_rebuild, HQ.
      unfold T1 at 2. rewrite (children_rebuild _ _ _ Hvoid). unfold kids1.
      rewrite (marksAmong_inserted _ _ m Hm), Hnone1, Hnone2.
      rewrite (cleaned_length _ Hfront), length_take_le by exact Hn.
      rewrite Hname. reflexivity.
    + rewrite (children_rebuild _ _ _ Hleaf1), Hshape.
      unfold T1. rewrite (children_rebuild _ _ _ Hvoid). unfold kids1.
      rewrite <- (take_drop n (children T)) at 3.
      rewrite !flat_map_app. cbn [flat_map].
      rewrite (cleaned_marker m Hm). reflexivity.
Qed.

End Properties.

(** * The properties on the sample trees *)

(** The sample Location is the one the zipper reaches from the root. *)
Example sampleInText_reached :
  (let? inDiv := down sampleRoot in
   let? inP := down inDiv in
   locationInText inP 1) = Ok sampleInText.
Proof. reflexivity. Qed.

Lemma sampleInText_wellFramed : wellFramed sampleInText.
Proof.
  exists [IStr "b"], sampleInP, (textNode 3 "ab"), [IRec (element 4 "BR" [])].
  repeat split.
  - change (chained (([sampleRoot] ++ [sampleInDiv]) ++ [sampleInP])).
    apply (chained_push [sampleRoot] sampleInDiv sampleP sampleInP
             (textNode 3 "ab") [] [element 4 "BR" []]); try reflexivity.
    change (chained (([] ++ [sampleRoot]) ++ [sampleInDiv])).
    apply (chained_push [] sampleRoot sampleTree sampleInDiv sampleP []
             [textNode 5 "cd"]); try reflexivity.
    apply chained_root. reflexivity.
  - intros Hkind. discriminate Hkind.
Defined.

Lemma split_preserves_content_witness :
  wellFramed sampleInText
  ∧ ∃ d loc' h' sides,
      split sampleInText None heap0 = Ok (loc', h')
      ∧ splitRun None d sampleInText loc'
      ∧ (length (frames loc') + d)%nat = length (frames sampleInText)
      ∧ ((None : option (Location (list Z) → bool)) = None →
         length (frames loc') = 1%nat)
      ∧ splitPoint d loc' = Some sides
      ∧ joined sides (concat (lefts sampleInText) (rights sampleInText)).
Proof.
  split; [exact sampleInText_wellFramed |].
  apply (split_preserves_content sampleInText None heap0).
  exact sampleInText_wellFramed.
Defined.

(** The Location the exported [down] returns on a text node. *)
Example sampleEnteredText_reached : down sampleInP = Ok sampleEnteredText.
Proof. reflexivity. Qed.

(** C1, as stated for every Location below the root, fails on the
    Location [down] returns on a text node: its [rights] is a string, and
    seeding the right half with it ([content.join]) throws a TypeError. *)
Lemma split_throws_on_entered_text :
  down sampleInP = Ok sampleEnteredText
  ∧ frames sampleEnteredText ≠ []
  ∧ split sampleEnteredText None heap0 = Throw TypeError.
Proof.
  split; [reflexivity |]. split; [discriminate | reflexivity].
Qed.

Lemma fragmentedOffset_table_and_bounds_witness :
  0 ≤ 5
  ∧ fragmentedOffset sampleFragments 3 = Ok [1; 1]
  ∧ fragmentedOffset sampleFragments 5 = Throw TextOffsetOutOfBounds.
Proof.
  split; [lia |].
  destruct (fragmentedOffset_table_and_bounds sampleFragments 5 ltac:(lia))
    as [_ Htable].
  destruct Htable as (_ & _ & H3 & _ & H5);
    [reflexivity | repeat constructor |].
  split; assumption.
Defined.

Lemma defragmentText_identity_witness :
  markersAreElements (children sampleUnchanged)
  ∧ defragmentText sampleUnchanged heap0 = Ok (sampleOriginal, heap0).
Proof.
  assert (markersAreElements (children sampleUnchanged)) as Hm
      by (repeat constructor; discriminate).
  split; [exact Hm |].
  apply (defragmentText_identity sampleUnchanged heap0 Hm); reflexivity.
Defined.

(** Fragments ["ab"] and ["d"] against the original ["abc"]: a new text
    record ["abd"]. *)
Example defragmentText_edited :
  defragmentText sampleEdited heap0
  = Ok (textNode 101 "abd", mkHeap 102 0).
Proof. reflexivity. Qed.

Lemma postOrder_identity_walk_witness :
  isVoid (create sampleTree) = Ok false
  ∧ ∃ n T' h',
      (∀ fuel, (n ≤ fuel)%nat →
         walkPostOrder fuel (create sampleTree) identityMutate tt heap0
         = Ok ((create T', tt), h'))
      ∧ shape T' = shape sampleTree.
Proof.
  split; [reflexivity |].
  apply (postOrder_identity_walk sampleTree heap0). reflexivity.
Defined.

(** C5, as stated, fails on a tree that is a single text node: the first
    turn of the walk asks for the parent of the root and throws. *)
Lemma postOrder_identity_walk_text_root :
  (∀ fuel,
     walkPostOrder (S fuel) (create (textNode 1 "a" : Boromir (list Z)))
       identityMutate tt heap0 = Throw TypeError)
  ∧ (∀ fuel result,
       walkPostOrder fuel (create (textNode 1 "a" : Boromir (list Z)))
         identityMutate tt heap0 ≠ Ok result).
Proof.
  split.
  - intros fuel. reflexivity.
  - intros [|fuel] result; discriminate.
Qed.

Lemma gotoMarker_finds_visible_marker_witness :
  (isHit sampleMarker sampleMarked = false
   ∧ seenBelow sampleMarker sampleMarked = true
   ∧ ∃ n loc x h',
       (∀ fuel, (n ≤ fuel)%nat →
          gotoMarker fuel (create sampleMarked) sampleMarker heap0
          = Ok (Some loc, h'))
       ∧ after loc = Some (IRec x)
       ∧ isMarker x = true ∧ sameObject x sampleMarker = true)
  ∧ (occurs sampleMarker sampleTree = false
     ∧ ∃ n h',
         ∀ fuel, (n ≤ fuel)%nat →
           gotoMarker fuel (create sampleTree) sampleMarker heap0
           = Ok (None, h')).
Proof.
  split.
  - split; [reflexivity |]. split; [reflexivity |].
    apply (gotoMarker_finds_visible_marker sampleMarked sampleMarker heap0);
      reflexivity.
  - split; [reflexivity |].
    apply (gotoMarker_finds_visible_marker sampleTree sampleMarker heap0).
    reflexivity.
Defined.

(** C6, as stated, fails on a tree that holds the marker inside another
    marker: the walk does not enter markers, reaches the root and
    [gotoMarker] answers null. *)
Lemma gotoMarker_misses_nested_marker :
  occurs sampleMarker sampleNested = true
  ∧ isMarker sampleMarker = true
  ∧ (∀ fuel, (5 ≤ fuel)%nat →
       gotoMarker fuel (create sampleNested) sampleMarker heap0
       = Ok (None, mkHeap 101 0))
  ∧ (∀ fuel loc h',
       gotoMarker fuel (create sampleNested) sampleMarker heap0
       ≠ Ok (Some loc, h')).
Proof.
  assert (∀ fuel, gotoMarker (5 + fuel) (create sampleNested) sampleMarker heap0
                  = Ok (None, mkHeap 101 0)) as Hnull
      by (intros fuel; reflexivity).
  repeat split.
  - intros fuel Hfuel. replace fuel with (5 + (fuel - 5))%nat by lia. apply Hnull.
  - intros fuel loc h'.
    destruct fuel as [|[|[|[|[|fuel]]]]]; discriminate.
Qed.

(** The same happens to a marker that [zipper] itself places, when the
    boundary lies inside a void element: [<div><br></div>] with a boundary
    at offset 0 of the [br]. *)
Example gotoMarker_misses_marker_in_void_element :
  (let* session := zipper (element 1 "DIV" [element 2 "BR" []])
                     [("start"%string, [0; 0; 0])] in
   let* m := lift (let? found := defined (snd session !! "start"%string) in
                   defined found) in
   let* top := lift (asRecord (after (fst session))) in
   let* loc := gotoMarker 10 (fst session) m in
   ret (occurs m top, loc)) heap0
  = Ok ((true, None), mkHeap 105 1).
Proof. reflexivity. Qed.

Lemma out_of_scope_boundary_witness :
  after sampleRoot = Some (IRec sampleTree)
  ∧ (0 < length (pathOfFront sampleTree))%nat
  ∧ pathOfBoundary [1; 2] !! 0%nat ≠ pathOfFront sampleTree !! 0%nat
  ∧ markTree sampleRoot [1; 2] "out" heap0 = Ok ((sampleRoot, None), heap0)
  ∧ markupFrom (sampleRoot, ∅) [("out"%string, [1; 2]); ("start"%string, [0; 0; 1])] heap0
    = markupFrom (sampleRoot, <["out"%string := None]> ∅)
        [("start"%string, [0; 0; 1])] heap0.
Proof.
  assert (pathOfBoundary [1; 2] !! 0%nat ≠ pathOfFront sampleTree !! 0%nat) as Hneq
      by discriminate.
  assert (0 < length (pathOfFront sampleTree))%nat as Hlen by (simpl; lia).
  split; [reflexivity |]. split; [exact Hlen |]. split; [exact Hneq |].
  apply (out_of_scope_boundary sampleRoot sampleTree [1; 2] "out" ∅
           [("start"%string, [0; 0; 1])] heap0 0 eq_refl Hlen Hneq).
Defined.

Lemma excess_counts_degrade_witness :
  rights sampleInDiv = Arr [IRec sampleP; IRec (textNode 5 "cd")]
  ∧ next sampleInDiv (Some 7) =
    mkLocation [IRec sampleP; IRec (textNode 5 "cd")] (Arr []) [sampleRoot]
  ∧ splice sampleInDiv 7 (ROne sampleMarker) =
    mkLocation [] (Arr [IRec sampleMarker]) [sampleRoot].
Proof.
  split; [reflexivity |].
  destruct (excess_counts_degrade sampleInDiv
              [IRec sampleP; IRec (textNode 5 "cd")] 7 7 None (ROne sampleMarker)
              eq_refl) as (_ & Hnext & Hsplice & _).
  split; [apply Hnext | apply Hsplice]; simpl; lia.
Defined.

(** C8, as stated for every Location, fails on the Location [down] returns
    on a text node: a drop count above the length of the text leaves the
    replacement and the empty string that [slice] returns of the text. *)
Lemma splice_excess_on_entered_text :
  down sampleInP = Ok sampleEnteredText
  ∧ Z.of_nat (seqLength (rights sampleEnteredText)) < 5
  ∧ splice sampleEnteredText 5 (ROne sampleMarker)
    = mkLocation [] (Arr [IRec sampleMarker; IStr ""])
        (frames sampleEnteredText)
  ∧ splice sampleEnteredText 5 (ROne sampleMarker)
    ≠ mkLocation [] (Arr [IRec sampleMarker]) (frames sampleEnteredText).
Proof.
  split; [reflexivity |]. split; [simpl; lia |].
  split; [reflexivity | discriminate].
Qed.

Lemma zero_stride_asymmetry_witness :
  rights (next sampleInDiv None) = Arr [IRec (textNode 5 "cd")]
  ∧ next (next sampleInDiv None) (Some 0) = next sampleInDiv None
  ∧ prev (next sampleInDiv None) (Some 0) ≠ next sampleInDiv None.
Proof.
  split; [reflexivity |].
  destruct (zero_stride_asymmetry (next sampleInDiv None)
              [IRec (textNode 5 "cd")] eq_refl) as (Hnext & _ & Hprev).
  split; [exact Hnext |]. apply Hprev. discriminate.
Defined.

Lemma fragmentedText_detected_by_name_witness :
  name sampleQuote = "Q"%string ∧ isMarker sampleQuote = false
  ∧ isFragmentedTextFlag sampleQuote = false ∧ original sampleQuote = None
  ∧ updateMutate sampleQuote [0] [] heap0
    = (let* t := defragmentText sampleQuote in ret ([IRec t], [])) heap0
  ∧ ∃ loc' h',
      FragmentedText sampleInText heap0 = Ok (loc', h')
      ∧ ∃ f w, last (frames loc') = Some f ∧ after f = Some (IRec w)
               ∧ isFragmentedText w = true.
Proof.
  destruct (@fragmentedText_detected_by_name (list Z) pathHost)
    as (_ & Hwrapper & Hplain).
  destruct (Hplain sampleQuote eq_refl eq_refl) as (Hupdate & _ & _).
  do 4 (split; [reflexivity |]).
  split; [apply Hupdate |].
  eexists _, _. split; [lazy; reflexivity |].
  apply (Hwrapper sampleInText _ heap0 _ eq_refl).
Defined.

(** C9, as stated for every Location, fails on the Location [down] returns
    on a text node: [next] with stride 0 adds the empty string that
    [slice(0, 0)] returns of the text to [lefts]. *)
Lemma next_zero_on_entered_text :
  down sampleInP = Ok sampleEnteredText
  ∧ next sampleEnteredText (Some 0)
    = mkLocation [IStr ""] (Str "ab") (frames sampleEnteredText)
  ∧ next sampleEnteredText (Some 0) ≠ sampleEnteredText.
Proof.
  split; [reflexivity |]. split; [reflexivity | discriminate].
Qed.

(** * Navigation, resolution and update on the sample trees *)

(** A Location in the [div] with the paragraph on the left. *)
Lemma prev_next_inverse_witness :
  rights (next sampleInDiv None) = Arr [IRec (textNode 5 "cd")]
  ∧ 0 < 1
  ∧ prev (next (next sampleInDiv None) (Some 1)) (Some 1)
    = next sampleInDiv None
  ∧ next (prev (next sampleInDiv None) (Some 1)) (Some 1)
    = next sampleInDiv None.
Proof.
  split; [reflexivity |]. split; [lia |].
  destruct (prev_next_inverse (next sampleInDiv None)
              [IRec (textNode 5 "cd")] 1 eq_refl ltac:(lia))
    as [Hright Hleft].
  split; [apply Hright | apply Hleft]; simpl; lia.
Defined.

Lemma insert_remove_compose_witness :
  rights sampleInDiv = Arr [IRec sampleP; IRec (textNode 5 "cd")]
  ∧ rights sampleEnteredText = Str "ab"
  ∧ after (insert sampleInDiv (ROne sampleMarker)) = Some (IRec sampleMarker)
  ∧ lefts (insert sampleInDiv (ROne sampleMarker)) = lefts sampleInDiv
  ∧ replace sampleInDiv (ROne sampleMarker)
    = insert (remove sampleInDiv) (ROne sampleMarker)
  ∧ remove (insert sampleInDiv (ROne sampleMarker)) = sampleInDiv
  ∧ remove (insert sampleEnteredText (ROne sampleMarker))
    = mkLocation [] (Arr [IStr "ab"]) (frames sampleEnteredText).
Proof.
  do 2 (split; [reflexivity |]).
  destruct (insert_remove_compose sampleInDiv sampleMarker)
    as (Hafter & Hlefts & Hreplace & Hback & _).
  destruct (insert_remove_compose sampleEnteredText sampleMarker)
    as (_ & _ & _ & _ & Hstring).
  do 3 (split; [assumption |]).
  split; [apply (Hback _ eq_refl) | apply (Hstring _ eq_refl)].
Defined.

Lemma up_down_roundtrip_witness :
  rights sampleInDiv = Arr [IRec sampleP; IRec (textNode 5 "cd")]
  ∧ ∃ r',
      (let* inner := lift (down sampleInDiv) in up inner) heap0
      = Ok (mkLocation (lefts sampleInDiv)
              (Arr [IRec r'; IRec (textNode 5 "cd")]) (frames sampleInDiv),
            bump heap0)
      ∧ shape r' = shape sampleP ∧ rid r' = nextId heap0.
Proof.
  split; [reflexivity |].
  apply (up_down_roundtrip sampleInDiv sampleP [IRec (textNode 5 "cd")] heap0
           eq_refl).
Defined.

Lemma root_location_edges_witness :
  frames sampleRoot = []
  ∧ up sampleRoot heap0 = Throw TypeError
  ∧ split sampleRoot None heap0 = Throw TypeError
  ∧ root sampleRoot heap0 = Ok (sampleRoot, heap0)
  ∧ down (next sampleRoot None) = Throw TypeError.
Proof.
  split; [reflexivity |].
  destruct (root_location_edges sampleRoot None heap0 eq_refl)
    as (Hup & Hsplit & Hroot & _).
  destruct (root_location_edges (next sampleRoot None) None heap0 eq_refl)
    as (_ & _ & _ & Hdown).
  repeat (split; [assumption |]).
  apply Hdown. intros r Habs. discriminate Habs.
Defined.

Lemma fragmentedOffset_position_witness :
  0 ≤ 3 ≤ fragmentsTotal sampleFragments
  ∧ ∃ path,
      fragmentedOffset sampleFragments 3 = Ok path
      ∧ ((∃ n : nat,
            path = [Z.of_nat n]
            ∧ (n ≤ length (children sampleFragments))%nat
            ∧ textBefore n (children sampleFragments) = 3)
         ∨ (∃ (n : nat) f o,
              path = [Z.of_nat n; o]
              ∧ children sampleFragments !! n = Some f
              ∧ isMarker f = false
              ∧ 0 < o < Z.of_nat (String.length (text f))
              ∧ textBefore n (children sampleFragments) + o = 3)).
Proof.
  assert (0 ≤ 3 ≤ fragmentsTotal sampleFragments) as Hin
      by (split; [lia | vm_compute; discriminate]).
  split; [exact Hin |].
  apply (fragmentedOffset_position sampleFragments 3 Hin).
Defined.

Lemma locationInText_roundtrip_witness :
  rights sampleInP = Arr [IRec (textNode 3 "ab"); IRec (element 4 "BR" [])]
  ∧ isTextRecord (textNode 3 "ab" : Boromir (list Z)) = true
  ∧ isMarker (textNode 3 "ab" : Boromir (list Z)) = false
  ∧ 0 ≤ 1
  ∧ ∃ a b r',
      locationInText sampleInP 1
      = Ok (mkLocation [IStr a] (Arr [IStr b]) (frames sampleInP ++ [sampleInP]))
      ∧ a +:+ b = "ab"%string
      ∧ String.length a = Nat.min (Z.to_nat 1) 2
      ∧ traverse sampleInP [1; 7] heap0
        = Ok (mkLocation [IStr a] (Arr [IStr b])
                (frames sampleInP ++ [sampleInP]), heap0)
      ∧ up (mkLocation [IStr a] (Arr [IStr b])
              (frames sampleInP ++ [sampleInP])) heap0
        = Ok (mkLocation (lefts sampleInP)
                (Arr [IRec r'; IRec (element 4 "BR" [])]) (frames sampleInP),
              bump heap0)
      ∧ shape r' = shape (textNode 3 "ab").
Proof.
  do 3 (split; [reflexivity |]). split; [lia |].
  apply (locationInText_roundtrip sampleInP (textNode 3 "ab")
           [IRec (element 4 "BR" [])] 1 [7] heap0 eq_refl eq_refl eq_refl).
  lia.
Defined.

Lemma locationInElement_position_witness :
  rights sampleInDiv = Arr [IRec sampleP; IRec (textNode 5 "cd")]
  ∧ isTextRecord sampleP = false
  ∧ ∃ inner,
      locationInElement sampleInDiv 1 = Ok inner
      ∧ frames inner = frames sampleInDiv ++ [sampleInDiv]
      ∧ lefts inner = [IRec (textNode 3 "ab")]
      ∧ rights inner = Arr [IRec (element 4 "BR" [])].
Proof.
  do 2 (split; [reflexivity |]).
  destruct (locationInElement_position sampleInDiv sampleP
              [IRec (textNode 5 "cd")] 1 eq_refl eq_refl)
    as (inner & Hat & Hframes & _ & Hsides).
  exists inner. split; [exact Hat |]. split; [exact Hframes |].
  apply Hsides; [lia |]. repeat constructor.
Defined.

Lemma root_rebuilds_content_witness :
  wellFramed sampleInText
  ∧ rights sampleInText = Arr [IStr "b"]
  ∧ ∃ loc' T' p' h',
      root sampleInText heap0 = Ok (loc', h')
      ∧ frames loc' = []
      ∧ after loc' = Some (IRec T')
      ∧ descend (trailOf sampleInText) T' = Some p'
      ∧ seeded p' (lefts sampleInText ++ [IStr "b"]).
Proof.
  split; [exact sampleInText_wellFramed |]. split; [reflexivity |].
  apply (root_rebuilds_content sampleInText [IStr "b"] heap0
           sampleInText_wellFramed eq_refl).
Defined.

Lemma mark_then_defragment_witness :
  last (frames sampleInText) = Some sampleInP
  ∧ rights sampleInP = Arr [IRec (textNode 3 "ab"); IRec (element 4 "BR" [])]
  ∧ rights sampleInText = Arr [IStr "b"]
  ∧ isTextRecord (textNode 3 "ab" : Boromir (list Z)) = true
  ∧ isTextRecord sampleMarker = false
  ∧ ∃ atText o h',
      up sampleInText heap0 = Ok (atText, bump heap0)
      ∧ after atText = Some (IRec o)
      ∧ text o = join (lefts sampleInText ++ [IStr "b"])
      ∧ (let* marked := mark sampleInText sampleMarker in
         let* back := up marked in
         let* wrapper := lift (asRecord (after back)) in
         defragmentText wrapper) heap0 = Ok (o, h').
Proof.
  do 5 (split; [reflexivity |]).
  apply (mark_then_defragment sampleInText sampleInP (textNode 3 "ab")
           [IRec (element 4 "BR" [])] "b" [] sampleMarker heap0
           eq_refl eq_refl eq_refl eq_refl eq_refl).
Defined.

Lemma update_walk_tidies_witness :
  isVoid (create sampleMarked) = Ok false
  ∧ ∃ n T' h',
      (∀ fuel, (n ≤ fuel)%nat →
         walkPostOrder fuel (create sampleMarked) updateMutate [] heap0
         = Ok ((create T',
                marksAmong [] (isFragmentedText sampleMarked) []
                  (children sampleMarked)), h'))
      ∧ map shape (children T') = flat_map cleaned (children sampleMarked)
      ∧ name T' = name sampleMarked ∧ styles T' = styles sampleMarked.
Proof.
  assert (isVoid (create sampleMarked) = Ok false) as Hvoid by reflexivity.
  split; [exact Hvoid |].
  apply (update_walk_tidies sampleMarked heap0 Hvoid).
Defined.

(** The marker held by the paragraph of [sampleMarked] is recorded at
    path [[0; 1]]. *)
Example sampleMarked_marks :
  marksAmong [] (isFragmentedText sampleMarked) [] (children sampleMarked)
  = [(Some "start"%string, [0; 1])].
Proof. reflexivity. Qed.

Lemma update_resolves_markers_witness :
  isVoid (create sampleMarked) = Ok false
  ∧ ∃ n h',
      ∀ fuel, (n ≤ fuel)%nat →
        update fuel (create sampleMarked) heap0
        = Ok (<["start"%string := [0; 1]]> ∅, h').
Proof.
  assert (isVoid (create sampleMarked) = Ok false) as Hvoid by reflexivity.
  split; [exact Hvoid |].
  destruct (update_resolves_markers sampleMarked heap0 Hvoid)
    as (n & T' & h' & Hrun & _).
  exists n, h'. exact Hrun.
Defined.

Lemma update_strips_markers_witness :
  isVoid (create sampleMarked) = Ok false
  ∧ forallb settled (children sampleMarked) = true
  ∧ ∃ n T' paths h',
      (∀ fuel, (n ≤ fuel)%nat →
         walkPostOrder fuel (create sampleMarked) updateMutate [] heap0
         = Ok ((create T', paths), h'))
      ∧ forallb markerFree (map shape (children T')) = true.
Proof.
  assert (isVoid (create sampleMarked) = Ok false) as Hvoid by reflexivity.
  assert (forallb settled (children sampleMarked) = true) as Hset
      by reflexivity.
  split; [exact Hvoid |]. split; [exact Hset |].
  apply (update_strips_markers sampleMarked heap0 Hvoid Hset).
Defined.

Lemma sampleTree_never_void (i : nat) (kids : list (Boromir (list Z))) :
  isVoidNode (rebuild i sampleTree kids) = false.
Proof. reflexivity. Defined.

Lemma marker_path_roundtrip_witness :
  isVoid (create sampleTree) = Ok false
  ∧ isFragmentedText sampleTree = false
  ∧ isMarker sampleMarker = true
  ∧ (1 ≤ length (children sampleTree))%nat
  ∧ Forall (fun c => isMarker c = false) (take 1 (children sampleTree))
  ∧ ∃ T1 h1,
      insertMarker sampleMarker (create sampleTree) [1] heap0
      = Ok (create T1, h1)
      ∧ children T1 = [sampleP; sampleMarker; textNode 5 "cd"]
      ∧ ∃ k T2 paths h2,
          (∀ fuel, (k ≤ fuel)%nat →
             walkPostOrder fuel (create T1) updateMutate [] h1
             = Ok ((create T2, paths), h2))
          ∧ (Some "start"%string, [1]) ∈ paths.
Proof.
  assert (Forall (fun c : Boromir (list Z) => isMarker c = false)
            (take 1 (children sampleTree))) as Hplain
      by (repeat constructor).
  assert (1 ≤ length (children sampleTree))%nat as Hlen by (simpl; lia).
  assert (isVoid (create sampleTree) = Ok false) as Hvoid by reflexivity.
  split; [exact Hvoid |].
  do 2 (split; [reflexivity |]). split; [exact Hlen |].
  split; [exact Hplain |].
  apply (marker_path_roundtrip sampleTree sampleMarker 1 heap0 Hvoid eq_refl
           sampleTree_never_void eq_refl Hlen Hplain).
Defined.

Lemma zipper_update_roundtrip_witness :
  isVoid (create sampleTree) = Ok false
  ∧ isFragmentedText sampleTree = false
  ∧ pathOfBoundary [0; 1] = pathOfFront sampleTree ++ [1]
  ∧ (1 ≤ length (children sampleTree))%nat
  ∧ marksAmong [] false [] (children sampleTree) = []
  ∧ ∃ tree m h1,
      zipper sampleTree [("caret"%string, [0; 1])] heap0
      = Ok ((tree, <["caret"%string := Some m]> ∅), h1)
      ∧ isMarker m = true ∧ boundary m = Some [0; 1]
      ∧ ∃ k T2 h2,
          (∀ fuel, (k ≤ fuel)%nat →
             update fuel tree h1
             = Ok (<["caret"%string := boundaryOfPath T2 [1]]> ∅, h2))
          ∧ map shape (children T2) = flat_map cleaned (children sampleTree).
Proof.
  assert (1 ≤ length (children sampleTree))%nat as Hlen by (simpl; lia).
  assert (isVoid (create sampleTree) = Ok false) as Hvoid by reflexivity.
  assert (marksAmong [] false [] (children sampleTree)
          = @nil (option string * list Z)) as Hnone by reflexivity.
  split; [exact Hvoid |].
  do 2 (split; [reflexivity |]). split; [exact Hlen |].
  split; [exact Hnone |].
  apply (zipper_update_roundtrip sampleTree "caret" [0; 1] 1 heap0
           Hvoid eq_refl sampleTree_never_void eq_refl Hlen Hnone).
Defined.
